(** * Binary splitting for the Chudnovsky series (raspberry-pi2-openmp.c)

    A shallow embedding of the recursive evaluator [bs], of the part of
    [main] that drives it and of the finalisation steps, together with
    the properties of the term recurrence, of the split heuristic and of
    the OpenMP fork/join regions.

    Target: the Raspberry Pi 2 (ARMv7, ILP32).  [int], [long] and
    [unsigned long] are 32 bits wide, [double] is IEEE-754 binary64.
    GMP integers ([mpz_t]) are unbounded and are modelled by [Z]. *)

From Stdlib Require Import ZArith Lia List Bool Floats.SpecFloat Arith.Factorial.
Import ListNotations.
Local Open Scope Z_scope.

(** ** Machine integers *)

Module Machine.

Definition ULONG_BITS : Z := 32.
Definition ULONG_MAX : Z := 2 ^ ULONG_BITS - 1.
Definition LONG_MAX : Z := 2 ^ (ULONG_BITS - 1) - 1.

(** Reduction of a mathematical integer to an [unsigned long]. *)
Definition wrap (x : Z) : Z := x mod 2 ^ ULONG_BITS.

Definition uadd (x y : Z) : Z := wrap (x + y).
Definition usub (x y : Z) : Z := wrap (x - y).
Definition umul (x y : Z) : Z := wrap (x * y).

(** [int] division truncates towards zero. *)
Definition idiv (x y : Z) : Z := Z.quot x y.

Definition is_ulong (x : Z) : Prop := 0 <= x <= ULONG_MAX.

End Machine.
Import Machine.

(** ** binary64 arithmetic on non-negative values

    A non-negative finite double is [mant * 2 ^ expo].  Every operation
    computes the exact result and rounds it to 53 significant bits, ties
    to even.  The values met here lie between [2^-53] and [2^33], far
    from the overflow and underflow thresholds of the format. *)

Module Double.

Record double : Set := mkD { mant : Z; expo : Z }.

Definition bitlen (n : Z) : Z := if n =? 0 then 0 else Z.log2 n + 1.

Definition rne53 (n e : Z) : double :=
  let s := bitlen n - 53 in
  if s <=? 0 then mkD n e
  else
    let q := n / 2 ^ s in
    let r := n mod 2 ^ s in
    let h := 2 ^ (s - 1) in
    let q' := if (h <? r) || ((r =? h) && Z.odd q) then q + 1 else q in
    mkD q' (e + s).

Definition dmul (x y : double) : double :=
  rne53 (mant x * mant y) (expo x + expo y).

Definition dadd (x y : double) : double :=
  let e := Z.min (expo x) (expo y) in
  rne53 (mant x * 2 ^ (expo x - e) + mant y * 2 ^ (expo y - e)) e.

(** Conversion of an integer to [double]. *)
Definition of_int (a : Z) : double := rne53 a 0.

(** Conversion to an integer type discards the fraction. *)
Definition trunc (x : double) : Z :=
  if 0 <=? expo x then mant x * 2 ^ expo x else mant x / 2 ^ (- expo x).

(** The literal [0.5224]: the nearest double is
    [0x1.0b780346dc5d6p-1]. *)
Definition d_0_5224 : double := mkD 4705360890676694 (-53).

(** [BITS_PER_DIGIT], [3.32192809488736234787]: the nearest double is
    [0x1.a934f0979a371p+1]. *)
Definition BITS_PER_DIGIT : double := mkD 7480317065143153 (-51).

(** The same value in the Standard Library's IEEE-754 specification,
    used to compare the two models on concrete operands. *)
Definition to_spec (x : double) : spec_float :=
  binary_normalize 53 1024 (mant x) (expo x) false.

End Double.

Import Double.

(** ** The split point

    [mid = a+(b-a)*0.5224]: the width is converted to [double] and
    multiplied by the constant, [a] is converted and added, and the sum
    is converted back to [unsigned long]. *)

Definition mid (a b : Z) : Z :=
  wrap (trunc (dadd (of_int a) (dmul (of_int (usub b a)) d_0_5224))).

(** ** Constants of the series *)

Definition A : Z := 13591409.
Definition B : Z := 545140134.
Definition C : Z := 640320.
Definition D : Z := 12.

(** ** Term triples

    [pstack], [qstack] and [gstack] hold GMP integers: unbounded, exact. *)

Record triple : Set := mkT { tP : Z; tQ : Z; tG : Z }.

(** Width 1, [bs] lines 110-125.  The operands handed to [mpz_set_ui]
    and [mpz_mul_ui] are [unsigned long] expressions. *)

Definition term_p (b : Z) : Z :=
  b * b * b * ((C / 24) * (C / 24)) * (C * 24).

Definition term_g (b : Z) : Z :=
  wrap (2 * b - 1) * wrap (6 * b - 1) * wrap (6 * b - 5).

Definition term_q (b : Z) : Z :=
  let q := (b * B + A) * term_g b in
  if b mod 2 =? 0 then q else - q.

Definition leaf (b : Z) : triple := mkT (term_p b) (term_q b) (term_g b).

(** The six integers a call works on: its three outputs and its three
    scratch values.  [mpz_init] sets a scratch value to 0; the outputs
    are written by every call before they are read. *)

Record frame : Set := mkF {
  pstack1 : Z; qstack1 : Z; gstack1 : Z;
  pstack2 : Z; qstack2 : Z; gstack2 : Z }.

Definition frame_init : frame := mkF 0 0 0 0 0 0.

Definition set_left (t : triple) (f : frame) : frame :=
  mkF (tP t) (tQ t) (tG t) (pstack2 f) (qstack2 f) (gstack2 f).

Definition set_right (t : triple) (f : frame) : frame :=
  mkF (pstack1 f) (qstack1 f) (gstack1 f) (tP t) (tQ t) (tG t).

(** Width 2, [bs] lines 134-166: both terms written out in place. *)

Definition unrolled_first (b : Z) : triple :=
  let p := wrap (b - 1) * wrap (b - 1) * wrap (b - 1)
           * ((C / 24) * (C / 24)) * (C * 24) in
  let g := wrap (2 * (b - 1) - 1) * wrap (6 * (b - 1) - 1)
           * wrap (6 * (b - 1) - 5) in
  let q := (wrap (b - 1) * B + A) * g in
  mkT p (if wrap (b - 1) mod 2 =? 0 then q else - q) g.

Definition unrolled_second (b : Z) : triple :=
  let p := b * b * b * ((C / 24) * (C / 24)) * (C * 24) in
  let g := wrap (2 * b - 1) * wrap (6 * b - 1) * wrap (6 * b - 5) in
  let q := (b * B + A) * g in
  mkT p (if b mod 2 =? 0 then q else - q) g.

Definition unrolled (b : Z) : frame :=
  set_right (unrolled_second b) (set_left (unrolled_first b) frame_init).

(** ** OpenMP regions

    [#pragma omp parallel num_threads(n)] asks for a team of [n] threads;
    the runtime grants between 1 and [n] of them, and the code reads the
    granted number back with [omp_get_num_threads].  A runtime is the
    number of threads it grants to each region, named by the range of the
    call that opens it. *)

Inductive region : Set := SplitRegion | CombineRegion | DivSqrtRegion.

Definition runtime : Type := Z -> Z -> region -> Z.

Definition team (rt : runtime) (a b : Z) (k : region) (requested : Z) : Z :=
  Z.max 1 (Z.min requested (rt a b k)).

(** What an execution does: calls of [bs] with their arguments and
    parallel regions with the size asked for and granted, each thread's
    events in program order. *)

Inductive event : Set :=
| Call (a b tds : Z)
| Parallel (requested granted : Z).

Definition state : Set := frame * list event.

(** Every thread [i] of a team of [j] runs the body of the region.  The
    threads of one region write disjoint integers and none reads what
    another writes, so running them one after the other gives the values
    of any interleaving.  The log of a region lists what thread 0 did
    before what thread 1 did: one of the orders in which a concurrent
    execution can be observed, not the only one. *)

Definition run_team {S : Type} (j : Z) (body : Z -> Z -> S -> option S)
                    (st : S) : option S :=
  fold_left (fun acc i => match acc with
                          | Some s => body (Z.of_nat i) j s
                          | None => None
                          end)
            (seq 0 (Z.to_nat j)) (Some st).

Definition store (set : triple -> frame -> frame)
                 (r : option (triple * list event)) (st : state) : option state :=
  match r with
  | Some (t, lg) => Some (set t (fst st), snd st ++ lg)
  | None => None
  end.

(** The three products of the combine step, [bs] lines 198-200. *)

Definition mul_p (f : frame) : frame :=
  mkF (pstack1 f * pstack2 f) (qstack1 f) (gstack1 f)
      (pstack2 f) (qstack2 f) (gstack2 f).

Definition mul_q1 (f : frame) : frame :=
  mkF (pstack1 f) (qstack1 f * pstack2 f) (gstack1 f)
      (pstack2 f) (qstack2 f) (gstack2 f).

Definition mul_q2 (f : frame) : frame :=
  mkF (pstack1 f) (qstack1 f) (gstack1 f)
      (pstack2 f) (qstack2 f * gstack1 f) (gstack2 f).

(** Thread body of the combine region, [bs] lines 204-211. *)
Definition combine_thread (i j : Z) (st : state) : option state :=
  if i =? 0 then Some (mul_p (fst st), snd st)
  else if (i =? 1) || (j <? 3) then Some (mul_q1 (fst st), snd st)
  else if (i =? 2) || (j <? 3) then Some (mul_q2 (fst st), snd st)
  else Some st.

(** [bs] lines 197-213. *)
Definition products (rt : runtime) (a b tds : Z) (st : state) : option state :=
  if (usub b a <? 1000) || (tds <? 3) then
    Some (mul_q2 (mul_q1 (mul_p (fst st))), snd st)
  else
    let j := team rt a b CombineRegion 3 in
    run_team j combine_thread (fst st, snd st ++ [Parallel 3 j]).

(** [bs] lines 217-220; [keep_g] is the test guarding the product of the
    two [G] values. *)
Definition finish (keep_g : bool) (f : frame) : triple :=
  let q := qstack1 f + qstack2 f in
  mkT (pstack1 f) q (if keep_g then gstack1 f * gstack2 f else gstack1 f).

(** ** The recursive evaluator

    [bs a b pstack1 qstack1 gstack1 tds] returns its three outputs and
    what it executed.  [bs_body] is the body of the function with the
    recursive calls going through [self]; the recursion is bounded by
    [fuel], and [None] means that the bound was reached.  [keep b] is the
    guard of line 219. *)

Section Evaluator.

Variable rt : runtime.
Variable keep : Z -> bool.

(** Lines 133-195: the two halves, unrolled when the width is 2. *)
Definition children (self : Z -> Z -> Z -> option (triple * list event))
                    (a b tds : Z) : option state :=
  if usub b a =? 2 then Some (unrolled b, [Call a b tds])
  else
    let tds0 := idiv tds 2 in
    let tds1 := tds - tds0 in
    let m := mid a b in
    if (usub b a <? 1000) || (tds <? 2) then
      match store set_left (self a m tds0) (frame_init, [Call a b tds]) with
      | Some st => store set_right (self m b tds1) st
      | None => None
      end
    else
      let j := team rt a b SplitRegion 2 in
      run_team j
        (fun i j st =>
           if i =? 0 then store set_left (self a m tds0) st
           else if (i =? 1) || (j <? 2)
                then store set_right (self m b tds1) st
                else Some st)
        (frame_init, [Call a b tds; Parallel 2 j]).

Definition bs_body (self : Z -> Z -> Z -> option (triple * list event))
                   (a b tds : Z) : option (triple * list event) :=
  if usub b a =? 1 then Some (leaf b, [Call a b tds])
  else
    match children self a b tds with
    | Some st =>
        match products rt a b tds st with
        | Some (f, lg) => Some (finish (keep b) f, lg)
        | None => None
        end
    | None => None
    end.

Fixpoint bs_gen (fuel : nat) (a b tds : Z) : option (triple * list event) :=
  match fuel with
  | O => None
  | S fuel => bs_body (bs_gen fuel) a b tds
  end.

End Evaluator.

(** The program: the product of the [G] values is computed only while
    [b < terms], with [terms] the global term count (a [long], converted
    to [unsigned long] by the comparison). *)
Definition bs (rt : runtime) (terms : Z) : nat -> Z -> Z -> Z -> option (triple * list event) :=
  bs_gen rt (fun b => b <? wrap terms).

(** The evaluator that never skips the product of the [G] values. *)
Definition bs_always_g (rt : runtime) : nat -> Z -> Z -> Z -> option (triple * list event) :=
  bs_gen rt (fun _ => true).

(** [main], lines 280-286: the root pair and what was executed. *)
Definition evaluate_terms (rt : runtime) (fuel : nat) (terms threads : Z)
  : option (Z * Z * list event) :=
  if terms <=? 0 then Some (1, 0, [])
  else match bs rt terms fuel 0 (wrap terms) threads with
       | Some (t, lg) => Some (tP t, tQ t, lg)
       | None => None
       end.

(** A runtime that always grants what is asked for, one that grants a
    single thread, and the default of libgomp, where only the outermost
    region gets its team (nested parallelism is off unless the
    environment turns it on, and [main] leaves the setting as it is). *)
Definition full_teams : runtime := fun _ _ k =>
  match k with CombineRegion => 3 | _ => 2 end.

Definition one_thread : runtime := fun _ _ _ => 1.

(** ** Finalisation, [main] lines 298-355

    The floating-point backend (GMP's [mpf] layer) is a parameter: a
    type of values and the four operations used, each taking the
    precision of its destination.  An [mpf_t] variable gets its
    precision from the default in force when [mpf_init] runs. *)

(** [d*BITS_PER_DIGIT+16] with its fraction discarded: the value that
    the cast [(long)(d*BITS_PER_DIGIT+16)] yields when it is defined. *)
Definition precision_bits (d : Z) : Z :=
  trunc (dadd (dmul (of_int d) BITS_PER_DIGIT) (of_int 16)).

(** Conversion of a truncated [double] to [long]: undefined when the
    value does not fit. *)
Definition to_long (v : Z) : option Z :=
  if (- LONG_MAX - 1 <=? v) && (v <=? LONG_MAX) then Some v else None.

Inductive fname : Set := Pi | Qi | Ci.

Definition fname_eqb (x y : fname) : bool :=
  match x, y with
  | Pi, Pi | Qi, Qi | Ci, Ci => true
  | _, _ => false
  end.

Section Finalization.

Variable mpf : Type.
Variable mpf_zero : mpf.
Variable mpf_of_z : Z -> Z -> mpf.
Variable mpf_quot : Z -> mpf -> mpf -> mpf.
Variable mpf_prod : Z -> mpf -> mpf -> mpf.
Variable mpf_root : Z -> Z -> mpf.

Record fvar : Type := mkFV { fprec : Z; fval : mpf }.

(** [fzero x] tells whether the value held by [x] is 0: GMP stores it
    in the size field of the variable and [mpf_div] tests it. *)
Record mstate : Type := mkM {
  default_prec : Z;
  pstack : Z;
  qstack : Z;
  fv : fname -> option fvar;
  fzero : fname -> bool }.

Definition assign (x : fname) (v : fvar) (z : bool) (st : mstate) : mstate :=
  mkM (default_prec st) (pstack st) (qstack st)
      (fun y => if fname_eqb x y then Some v else fv st y)
      (fun y => if fname_eqb x y then z else fzero st y).

Definition mpf_set_default_prec (n : Z) (st : mstate) : mstate :=
  mkM n (pstack st) (qstack st) (fv st) (fzero st).

Definition mpz_addmul_ui_q_p (k : Z) (st : mstate) : mstate :=
  mkM (default_prec st) (pstack st) (qstack st + pstack st * k) (fv st) (fzero st).

Definition mpz_mul_ui_p (k : Z) (st : mstate) : mstate :=
  mkM (default_prec st) (pstack st * k) (qstack st) (fv st) (fzero st).

Definition mpf_init (x : fname) (st : mstate) : mstate :=
  assign x (mkFV (default_prec st) mpf_zero) true st.

(** Using a variable that was never initialised is undefined: [None]. *)
Definition mpf_set_z (x : fname) (z : Z) (st : mstate) : option mstate :=
  match fv st x with
  | Some v => Some (assign x (mkFV (fprec v) (mpf_of_z (fprec v) z)) (z =? 0) st)
  | None => None
  end.

(** [mpf_div] raises a division by zero, which ends the program, when
    the divisor is 0: [None]. *)
Definition mpf_div (r x y : fname) (st : mstate) : option mstate :=
  match fv st r, fv st x, fv st y with
  | Some vr, Some vx, Some vy =>
      if fzero st y then None
      else Some (assign r (mkFV (fprec vr) (mpf_quot (fprec vr) (fval vx) (fval vy)))
                        (fzero st x) st)
  | _, _, _ => None
  end.

Definition mpf_mul (r x y : fname) (st : mstate) : option mstate :=
  match fv st r, fv st x, fv st y with
  | Some vr, Some vx, Some vy =>
      Some (assign r (mkFV (fprec vr) (mpf_prod (fprec vr) (fval vx) (fval vy)))
                   (fzero st x || fzero st y) st)
  | _, _, _ => None
  end.

Definition mpf_sqrt_ui (r : fname) (k : Z) (st : mstate) : option mstate :=
  match fv st r with
  | Some vr => Some (assign r (mkFV (fprec vr) (mpf_root (fprec vr) k)) (k =? 0) st)
  | None => None
  end.

Definition bind {X Y : Type} (m : option X) (f : X -> option Y) : option Y :=
  match m with Some x => f x | None => None end.

(** Thread body of the last region, lines 333-342. *)
Definition div_sqrt_thread (i j : Z) (st : mstate) : option mstate :=
  if i =? 0 then mpf_div Qi Pi Qi st
  else if (i =? 1) || (j <? 2) then mpf_sqrt_ui Ci C (mpf_init Ci st)
  else Some st.

(** Lines 325-344. *)
Definition div_and_sqrt (rt : runtime) (threads : Z) (st : mstate)
  : option mstate :=
  if threads <? 2
  then bind (mpf_div Qi Pi Qi st)
            (fun st => mpf_sqrt_ui Ci C (mpf_init Ci st))
  else run_team (team rt 0 0 DivSqrtRegion 2) div_sqrt_thread st.

(** Lines 309-355: the integer steps, the conversions, the last
    region and the final product. *)
Definition convert_and_combine (rt : runtime) (threads : Z) (st : mstate)
  : option mstate :=
  let st := mpz_addmul_ui_q_p A st in
  let st := mpz_mul_ui_p (C / D) st in
  bind (mpf_set_z Pi (pstack st) (mpf_init Pi st)) (fun st =>
  bind (mpf_set_z Qi (qstack st) (mpf_init Qi st)) (fun st =>
  bind (div_and_sqrt rt threads st) (fun st =>
  mpf_mul Pi Qi Ci st))).

(** Line 298 onwards.  The default precision in force before line 298
    plays no part: it is replaced before any variable is created.  When
    the cast of line 298 is undefined, so is the run. *)
Definition finalize (rt : runtime) (threads d P Q : Z) : option mstate :=
  match to_long (precision_bits d) with
  | Some p =>
      convert_and_combine rt threads
        (mpf_set_default_prec p (mkM 0 P Q (fun _ => None) (fun _ => true)))
  | None => None
  end.

End Finalization.

(** ** Reference definitions used by the statements *)

(** The combination rule of two adjacent ranges, with every product. *)
Definition combine_rule (l r : triple) : triple :=
  mkT (tP l * tP r) (tQ l * tP r + tQ r * tG l) (tG l * tG r).

(** The rule as [bs] applies it: the product of the [G] values only when
    asked for, the left [G] being left in place otherwise. *)
Definition combine_pruned (keep_g : bool) (l r : triple) : triple :=
  mkT (tP l * tP r) (tQ l * tP r + tQ r * tG l)
      (if keep_g then tG l * tG r else tG l).

(** Direct evaluation of the [n] terms that follow index [a]: the terms
    are combined one at a time, from the left. *)
Fixpoint range_ref (a : Z) (n : nat) : triple :=
  match n with
  | O => mkT 1 0 1
  | S n' => combine_rule (range_ref a n') (leaf (a + Z.of_nat n' + 1))
  end.

(** The closed form of the single term of index [b], in exact integers. *)
Definition term_exact (b : Z) : triple :=
  let g := (6 * b - 5) * (2 * b - 1) * (6 * b - 1) in
  mkT (b ^ 3 * (C ^ 3 / 24))
      (if Z.odd b then - (g * (A + B * b)) else g * (A + B * b))
      g.

(** A runtime that gives its team to the regions of the outermost call
    only, as libgomp does when nested parallelism is off. *)
Definition outermost_only (terms : Z) : runtime := fun a b k =>
  if (a =? 0) && (b =? terms) then 3 else 1.

(** Events of a log. *)
Definition is_call (e : event) : bool :=
  match e with Call _ _ _ => true | Parallel _ _ => false end.

Definition call_in (lo hi : Z) (e : event) : Prop :=
  match e with
  | Call a b _ => lo <= a /\ a < b /\ b <= hi
  | Parallel _ _ => True
  end.

(** The frame holding the results of the two halves. *)
Definition frame_of (l r : triple) : frame :=
  set_right r (set_left l frame_init).

(** Number of threads that run the split and the combine step of a
    call: the granted team inside a region, every branch outside. *)
Definition forks (a b tds : Z) (n : Z) : bool :=
  negb ((usub b a <? 1000) || (tds <? n)).

Definition split_team (rt : runtime) (a b tds : Z) : Z :=
  if forks a b tds 2 then team rt a b SplitRegion 2 else 2.

Definition combine_team (rt : runtime) (a b tds : Z) : Z :=
  if forks a b tds 3 then team rt a b CombineRegion 3 else 3.

Definition split_marker (rt : runtime) (a b tds : Z) : list event :=
  if forks a b tds 2 then [Parallel 2 (team rt a b SplitRegion 2)] else [].

Definition combine_marker (rt : runtime) (a b tds : Z) : list event :=
  if forks a b tds 3 then [Parallel 3 (team rt a b CombineRegion 3)] else [].

(** The products that a team of [j] threads carries out. *)
Definition merged (j : Z) (f : frame) : frame :=
  if j =? 1 then mul_p f
  else if j =? 2 then mul_q1 (mul_p f)
  else mul_q2 (mul_q1 (mul_p f)).

(** The runtime grants every region of [bs] the team it asks for. *)
Definition grants_all (rt : runtime) : Prop :=
  forall a b, 2 <= rt a b SplitRegion /\ 3 <= rt a b CombineRegion.

(** A backend that records the operations applied, for concrete runs of
    the finalisation. *)
Inductive fexpr : Set :=
| FZero
| FOfZ (prec z : Z)
| FQuot (prec : Z) (x y : fexpr)
| FProd (prec : Z) (x y : fexpr)
| FRoot (prec k : Z).

Definition finalize_sym : runtime -> Z -> Z -> Z -> Z -> option (mstate fexpr) :=
  finalize fexpr FZero FOfZ FQuot FProd FRoot.

(** ** The driver: term count and depth, [main] lines 263-267 *)

(** Division in binary64, for a non-zero divisor: the quotient of the
    mantissas is formed with at least 55 bits, the remainder is kept as
    a sticky bit, and the result is rounded once. *)
Definition ddiv (x y : double) : double :=
  let k := Z.max 0 (56 + bitlen (mant y) - bitlen (mant x)) in
  let n := mant x * 2 ^ k in
  let q := n / mant y in
  let r := n mod mant y in
  rne53 (2 * q + (if r =? 0 then 0 else 1)) (expo x - expo y - k - 1).

(** [DIGITS_PER_ITER], [14.1816474627254776555]: the nearest double is
    [0x1.c5d00e56f9d57p+3]. *)
Definition DIGITS_PER_ITER : double := mkD 7983557778578775 (-49).

(** [terms = d/DIGITS_PER_ITER], for a digit count [d >= 0]. *)
Definition terms_of_digits (d : Z) : Z :=
  trunc (ddiv (of_int d) DIGITS_PER_ITER).

(** [1L<<depth]: shifting into or past the sign bit of a [long] is
    undefined. *)
Definition shl1 (depth : Z) : option Z :=
  if depth <? ULONG_BITS - 1 then Some (Z.shiftl 1 depth) else None.

(** [while ((1L<<depth)<terms) depth++;] *)
Fixpoint depth_loop (fuel : nat) (depth terms : Z) : option Z :=
  match fuel with
  | O => None
  | S fuel =>
      match shl1 depth with
      | Some v => if v <? terms then depth_loop fuel (depth + 1) terms
                  else Some depth
      | None => None
      end
  end.

(** [depth = 0; while ...; depth++;].  The loop leaves at the latest
    when [depth] is 31, where the shift is undefined. *)
Definition depth_of_terms (terms : Z) : option Z :=
  option_map (fun depth => depth + 1) (depth_loop 32 0 terms).

(** [main] from the term count to the value of pi: lines 263, 280-286
    and 298-355. *)
Definition main_pi (mpf : Type) (mpf_zero : mpf) (mpf_of_z : Z -> Z -> mpf)
    (mpf_quot mpf_prod : Z -> mpf -> mpf -> mpf) (mpf_root : Z -> Z -> mpf)
    (rt : runtime) (fuel : nat) (d threads : Z) : option (mstate mpf) :=
  match evaluate_terms rt fuel (terms_of_digits d) threads with
  | Some (P, Q, _) =>
      finalize mpf mpf_zero mpf_of_z mpf_quot mpf_prod mpf_root rt threads d P Q
  | None => None
  end.

(** ** The series in closed form *)

(** Direct evaluation with the closed form of every term. *)
Fixpoint range_exact (a : Z) (n : nat) : triple :=
  match n with
  | O => mkT 1 0 1
  | S n' => combine_rule (range_exact a n') (term_exact (a + Z.of_nat n' + 1))
  end.

Fixpoint sum_upto (f : nat -> Z) (m : nat) : Z :=
  match m with
  | O => f O
  | S m' => sum_upto f m' + f (S m')
  end.

(** The term of index [k] of the Chudnovsky sum over the common
    denominator of the first [n] terms:
    [(-1)^k (A + B k) G(0,k) P(k,n)]. *)
Definition chud_term (n k : nat) : Z :=
  (if Nat.odd k then -1 else 1) * (A + B * Z.of_nat k)
  * tG (range_exact 0 k) * tP (range_exact (Z.of_nat k) (n - k)).

Definition chud_sum (n : nat) : Z := sum_upto (chud_term n) n.

(** ** Measures on logs *)

Definition is_region (n : Z) (e : event) : bool :=
  match e with Parallel r _ => r =? n | Call _ _ _ => false end.

Definition count_regions (n : Z) (lg : list event) : Z :=
  Z.of_nat (length (filter (is_region n) lg)).

Definition count_calls (lg : list event) : Z :=
  Z.of_nat (length (filter is_call lg)).

(** The ranges evaluated without recursion, listed as the log has
    them. *)
Definition leaf_ranges (lg : list event) : list (Z * Z) :=
  flat_map (fun e => match e with
                     | Call a b _ => if b - a <=? 2 then [(a, b)] else []
                     | Parallel _ _ => []
                     end) lg.

(** [chain a b l]: the ranges of [l] are non-empty, adjacent, and go
    from [a] to [b]. *)
Fixpoint chain (a b : Z) (l : list (Z * Z)) : Prop :=
  match l with
  | [] => a = b
  | (x, y) :: r => x = a /\ a < y /\ y - x <= 2 /\ chain y b r
  end.

(** Number of ranges of [l] that hold the term of index [k]: a range
    [(x, y)] holds the terms [x+1 .. y]. *)
Definition holds_term (k : Z) (r : Z * Z) : bool :=
  (fst r <? k) && (k <=? snd r).

Definition count_holding (k : Z) (l : list (Z * Z)) : Z :=
  Z.of_nat (length (filter (holds_term k) l)).

Definition budget_in (lo hi : Z) (e : event) : Prop :=
  match e with
  | Call _ _ tds => lo <= tds <= hi
  | Parallel _ _ => True
  end.

(** * Properties *)

(** ** The floating-point model against the IEEE-754 specification *)

Example d_0_5224_nearest :
  2 * Z.abs (mant d_0_5224 * 10 ^ 4 - 5224 * 2 ^ 53) <= 10 ^ 4.
Proof. vm_compute. discriminate. Qed.

Example BITS_PER_DIGIT_nearest :
  2 * Z.abs (mant BITS_PER_DIGIT * 10 ^ 20 - 332192809488736234787 * 2 ^ 51)
  <= 10 ^ 20.
Proof. vm_compute. discriminate. Qed.

Example int_constants_fit :
  (C / 24) * (C / 24) = 711822400 /\ C * 24 = 15367680
  /\ (C / 24) * (C / 24) <= LONG_MAX /\ C * 24 <= LONG_MAX /\ B <= ULONG_MAX.
Proof. vm_compute. repeat split; discriminate. Qed.

Example dmul_vs_ieee :
  to_spec (dmul (of_int 1250) d_0_5224)
  = SFmul 53 1024 (to_spec (of_int 1250)) (to_spec d_0_5224)
  /\ to_spec (dmul (of_int 4294967295) d_0_5224)
  = SFmul 53 1024 (to_spec (of_int 4294967295)) (to_spec d_0_5224)
  /\ to_spec (dmul (of_int 3) d_0_5224)
  = SFmul 53 1024 (to_spec (of_int 3)) (to_spec d_0_5224).
Proof. vm_compute. repeat split. Qed.

Example dadd_vs_ieee :
  let x := dmul (of_int 3) d_0_5224 in
  to_spec (dadd (of_int 4294967292) x)
  = SFadd 53 1024 (to_spec (of_int 4294967292)) (to_spec x)
  /\ to_spec (dadd (of_int 7) x) = SFadd 53 1024 (to_spec (of_int 7)) (to_spec x).
Proof. vm_compute. repeat split. Qed.

Example mid_examples :
  mid 0 3 = 1 /\ mid 0 1000 = 522 /\ mid 0 1250 = 653 /\ mid 1250 2500 = 1903
  /\ mid 4294967292 4294967295 = 4294967293.
Proof. vm_compute. repeat split. Qed.

(** ** Rounding *)

Lemma bitlen_bounds n : 0 < n -> 2 ^ (bitlen n - 1) <= n < 2 ^ bitlen n.
Proof.
  intros Hn. unfold bitlen.
  destruct (Z.eqb_spec n 0) as [->|_]; [lia|].
  replace (Z.log2 n + 1 - 1) with (Z.log2 n) by lia.
  replace (Z.log2 n + 1) with (Z.succ (Z.log2 n)) by lia.
  apply Z.log2_spec; exact Hn.
Qed.

(** Rounding: the result is [mant * 2^(e+s)] with [s] the number of
    discarded bits, and lies within half a unit in the last place. *)
Lemma rne53_spec n e :
  0 <= n ->
  exists s, 0 <= s /\ expo (rne53 n e) = e + s /\ 0 <= mant (rne53 n e)
    /\ n < 2 ^ (53 + s) /\ (0 < s -> 2 ^ (52 + s) <= n)
    /\ - 2 ^ s <= 2 * (mant (rne53 n e) * 2 ^ s - n) <= 2 ^ s.
Proof.
  intros Hn. unfold rne53.
  destruct (Z.leb_spec (bitlen n - 53) 0) as [Hs|Hs].
  - exists 0. cbn [mant expo]. rewrite Z.add_0_r, Z.pow_0_r.
    repeat split; try lia.
    destruct (Z.eq_dec n 0) as [->|Hz]; [reflexivity|].
    pose proof (bitlen_bounds n ltac:(lia)) as [_ Hb].
    eapply Z.lt_le_trans; [exact Hb|]. apply Z.pow_le_mono_r; lia.
  - set (s := bitlen n - 53) in *.
    assert (Hpos : 0 < n). { unfold bitlen in s. destruct (Z.eqb_spec n 0); subst s; lia. }
    pose proof (bitlen_bounds n Hpos) as [Hlo Hhi].
    exists s. cbn [mant expo].
    assert (Hp : 0 < 2 ^ s) by (apply Z.pow_pos_nonneg; lia).
    assert (Hh : 2 ^ s = 2 * 2 ^ (s - 1)).
    { rewrite <- Z.pow_succ_r by lia. f_equal. lia. }
    pose proof (Z.div_mod n (2 ^ s) ltac:(lia)) as Hdm.
    pose proof (Z.mod_pos_bound n (2 ^ s) Hp) as Hr.
    assert (Hq : 0 <= n / 2 ^ s) by (apply Z.div_pos; lia).
    replace (53 + s) with (bitlen n) by (subst s; lia).
    replace (52 + s) with (bitlen n - 1) by (subst s; lia).
    repeat split; try lia.
    + destruct (_ || _); lia.
    + destruct (Z.ltb_spec (2 ^ (s - 1)) (n mod 2 ^ s)); cbn [orb].
      * nia.
      * destruct (Z.eqb_spec (n mod 2 ^ s) (2 ^ (s - 1))); cbn [andb].
        -- destruct (Z.odd (n / 2 ^ s)); nia.
        -- nia.
    + destruct (Z.ltb_spec (2 ^ (s - 1)) (n mod 2 ^ s)); cbn [orb].
      * nia.
      * destruct (Z.eqb_spec (n mod 2 ^ s) (2 ^ (s - 1))); cbn [andb].
        -- destruct (Z.odd (n / 2 ^ s)); nia.
        -- nia.
Qed.

Lemma rne53_exact n e c t :
  0 <= t -> 0 <= c < 2 ^ 53 -> n = c * 2 ^ t ->
  exists s, 0 <= s /\ expo (rne53 n e) = e + s /\ mant (rne53 n e) * 2 ^ s = n
            /\ n < 2 ^ (53 + s) /\ (0 < s -> 2 ^ (52 + s) <= n).
Proof.
  intros Ht Hc Hn.
  assert (H0 : 0 <= n) by (subst n; apply Z.mul_nonneg_nonneg; [lia|apply Z.pow_nonneg; lia]).
  destruct (rne53_spec n e H0) as (s & Hs & He & Hm & Hhi & Hlo & Hr).
  exists s. repeat split; try assumption.
  destruct (Z.eq_dec s 0) as [->|Hs0].
  - rewrite Z.pow_0_r in *. lia.
  - assert (Hst : s <= t).
    { specialize (Hlo ltac:(lia)).
      assert (Hlt : 2 ^ (52 + s) < 2 ^ (53 + t)).
      { eapply Z.le_lt_trans; [exact Hlo|]. subst n.
        rewrite Z.pow_add_r by lia.
        apply Z.mul_lt_mono_pos_r; [apply Z.pow_pos_nonneg; lia | lia]. }
      apply Z.pow_lt_mono_r_iff in Hlt; lia. }
    assert (Hsplit : 2 ^ t = 2 ^ (t - s) * 2 ^ s).
    { rewrite <- Z.pow_add_r by lia. f_equal. lia. }
    assert (Hp : 0 < 2 ^ s) by (apply Z.pow_pos_nonneg; lia).
    rewrite Hn, Hsplit in *.
    set (k := c * 2 ^ (t - s)) in *.
    replace (c * (2 ^ (t - s) * 2 ^ s)) with (k * 2 ^ s) in * by (subst k; ring).
    set (m := mant _) in *. set (P := 2 ^ s) in *.
    clearbody m P.
    assert (m = k); [|subst m; reflexivity].
    destruct (Z.lt_trichotomy m k) as [Hlt|[Heq|Hgt]]; [exfalso|exact Heq|exfalso].
    + assert ((m + 1) * P <= k * P) by (apply Z.mul_le_mono_nonneg_r; lia). lia.
    + assert ((k + 1) * P <= m * P) by (apply Z.mul_le_mono_nonneg_r; lia). lia.
Qed.

Lemma of_int_small a : 0 <= a < 2 ^ 53 -> of_int a = mkD a 0.
Proof.
  intros Ha. unfold of_int, rne53.
  destruct (Z.leb_spec (bitlen a - 53) 0) as [_|Hs]; [reflexivity|exfalso].
  unfold bitlen in Hs. destruct (Z.eqb_spec a 0); [lia|].
  assert (Z.log2 a < 53) by (apply Z.log2_lt_pow2; lia). lia.
Qed.

Lemma pow2_le_inv s t : 0 <= s -> 2 ^ s < 2 ^ t -> s < t.
Proof. intros Hs H. destruct (Z.lt_ge_cases s t); [assumption|]. 
  assert (2 ^ t <= 2 ^ s) by (apply Z.pow_le_mono_r; lia). lia. Qed.

Lemma double_eta (d : double) : d = mkD (mant d) (expo d).
Proof. destruct d; reflexivity. Qed.

Lemma mid_real a w :
  0 <= a -> 0 <= w -> a + w <= ULONG_MAX ->
  trunc (dadd (mkD a 0) (dmul (mkD w 0) d_0_5224)) = a + w * 653 / 1250.
Proof.
  intros Ha Hw Hb. change ULONG_MAX with 4294967295 in Hb.
  unfold dmul, d_0_5224. cbn [mant expo].
  set (M := 4705360890676694).
  assert (HM : 1250 * M = 653 * 2 ^ 53 - 276) by reflexivity.
  assert (HwM : 0 <= w * M) by (subst M; lia).
  destruct (rne53_spec (w * M) (0 + -53) HwM) as (s1 & Hs1 & He1 & Hm1 & Hhi1 & Hlo1 & Hr1).
  set (x := rne53 (w * M) (0 + -53)) in *.
  assert (Hs1' : s1 <= 32).
  { destruct (Z.eq_dec s1 0); [lia|]. specialize (Hlo1 ltac:(lia)).
    assert (2 ^ (52 + s1) < 2 ^ 85) by (subst M; change (2 ^ 85) with 38685626227668133590597632; lia).
    apply pow2_le_inv in H; lia. }
  unfold dadd. cbn [mant expo]. rewrite He1.
  replace (Z.min 0 (0 + -53 + s1)) with (s1 - 53) by lia.
  replace (0 - (s1 - 53)) with (53 - s1) by lia.
  replace (0 + -53 + s1 - (s1 - 53)) with 0 by lia.
  rewrite Z.pow_0_r, Z.mul_1_r.
  set (X := mant x) in *.
  set (P1 := 2 ^ s1) in *.
  set (Dm := 2 ^ (53 - s1)).
  assert (HP1 : 0 < P1) by (apply Z.pow_pos_nonneg; lia).
  assert (HP1' : P1 <= 2 ^ 32) by (apply Z.pow_le_mono_r; lia).
  assert (HDm : 0 < Dm) by (apply Z.pow_pos_nonneg; lia).
  assert (HPD : P1 * Dm = 2 ^ 53).
  { unfold P1, Dm. rewrite <- Z.pow_add_r by lia. f_equal. lia. }
  assert (Hn2 : 0 <= a * Dm + X) by nia.
  set (F := w * 653 / 1250).
  pose proof (Z.div_mod (w * 653) 1250 ltac:(lia)) as Hdiv. fold F in Hdiv.
  pose proof (Z.mod_pos_bound (w * 653) 1250 ltac:(lia)) as Hrho.
  set (rho := (w * 653) mod 1250) in *.
  assert (HF : 0 <= F <= w) by lia.
  (* second rounding: exact when the product is an integer *)
  assert (Hsecond : exists s2 Y, 0 <= s2 /\ s1 + s2 <= 33
            /\ rne53 (a * Dm + X) (s1 - 53) = mkD Y (s1 - 53 + s2)
            /\ (a + F) * 2 ^ 53 <= Y * 2 ^ s2 * P1 < (a + F + 1) * 2 ^ 53).
  { assert (Hsum : forall s2, 0 <= s2 -> (0 < s2 -> 2 ^ (52 + s2) <= a * Dm + X) ->
                              s1 + s2 <= 33).
    { intros s2 Hs2 Hlo2. destruct (Z.eq_dec s2 0); [lia|]. specialize (Hlo2 ltac:(lia)).
      assert (Hlt : 2 ^ (52 + s2 + s1) < 2 ^ 86).
      { rewrite Z.pow_add_r by lia. fold P1.
        apply Z.le_lt_trans with ((a * Dm + X) * P1).
        - apply Z.mul_le_mono_nonneg_r; lia.
        - replace ((a * Dm + X) * P1) with (a * (P1 * Dm) + X * P1) by ring.
          rewrite HPD. change (2 ^ 53) with 9007199254740992.
          change (2 ^ 86) with 77371252455336267181195264.
          change (2 ^ 32) with 4294967296 in HP1'. subst M. lia. }
      apply pow2_le_inv in Hlt; lia. }
    destruct (Z.eq_dec rho 0) as [Hz|Hnz].
    - (* the width is a multiple of 1250 *)
      set (k := 67 * F - 35 * w).
      assert (Hk : w = 1250 * k) by (subst k; lia).
      assert (HFk : F = 653 * k) by lia.
      assert (HX : X * P1 = 653 * k * 2 ^ 53).
      { assert (Hge : 653 * k <= P1).
        { unfold P1 at 1. replace (53 + s1) with (s1 + 53) in Hhi1 by lia.
          rewrite Z.pow_add_r in Hhi1 by lia. fold P1 in Hhi1.
          change (2 ^ 53) with 9007199254740992 in *. subst M. lia. }
        assert (Hmul : 653 * k * 2 ^ 53 = (653 * k * Dm) * P1) by (rewrite <- HPD; ring).
        rewrite Hmul in *. set (K := 653 * k * Dm) in *.
        assert (HwMk : w * M = K * P1 - 276 * k).
        { unfold K. rewrite <- Z.mul_assoc, (Z.mul_comm Dm P1), HPD.
          change (2 ^ 53) with 9007199254740992. subst M. lia. }
        rewrite HwMk in Hr1.
        assert (X = K); [|subst X; lia].
        destruct (Z.lt_trichotomy X K) as [Hlt|[Heq|Hgt]]; [exfalso|exact Heq|exfalso].
        + assert ((X + 1) * P1 <= K * P1) by (apply Z.mul_le_mono_nonneg_r; lia). lia.
        + assert ((K + 1) * P1 <= X * P1) by (apply Z.mul_le_mono_nonneg_r; lia). lia. }
      assert (HXeq : X = 653 * k * Dm).
      { apply Z.mul_reg_r with P1; [lia|]. rewrite HX, <- HPD. ring. }
      destruct (rne53_exact (a * Dm + X) (s1 - 53) (a + 653 * k) (53 - s1))
        as (s2 & Hs2 & He2 & Hm2 & Hhi2 & Hlo2).
      + lia.
      + change (2 ^ 53) with 9007199254740992. lia.
      + rewrite HXeq. fold Dm. ring.
      + exists s2, (mant (rne53 (a * Dm + X) (s1 - 53))).
        split; [exact Hs2|]. split; [apply Hsum; assumption|]. split.
        * rewrite <- He2. apply double_eta.
        * rewrite Hm2. replace ((a * Dm + X) * P1) with (a * (P1 * Dm) + X * P1) by ring.
          rewrite HPD, HX, HFk. change (2 ^ 53) with 9007199254740992. lia.
    - (* otherwise the fraction is at least 1/1250 away from an integer *)
      destruct (rne53_spec (a * Dm + X) (s1 - 53) Hn2)
        as (s2 & Hs2 & He2 & Hm2 & Hhi2 & Hlo2 & Hr2).
      exists s2, (mant (rne53 (a * Dm + X) (s1 - 53))).
      split; [exact Hs2|]. split; [apply Hsum; assumption|]. split.
      + rewrite <- He2. apply double_eta.
      + specialize (Hsum s2 Hs2 Hlo2).
        set (Y := mant (rne53 (a * Dm + X) (s1 - 53))) in *. set (P2 := 2 ^ s2) in *.
        assert (HP2 : 0 < P2) by (apply Z.pow_pos_nonneg; lia).
        assert (HP12 : P2 * P1 <= 2 ^ 33).
        { unfold P1, P2. rewrite <- Z.pow_add_r by lia. apply Z.pow_le_mono_r; lia. }
        set (E2 := Y * P2 - (a * Dm + X)) in *.
        assert (HT : Y * P2 * P1 = a * 2 ^ 53 + X * P1 + E2 * P1).
        { rewrite <- HPD. unfold E2. ring. }
        assert (HE : - (2 ^ 33) <= 2 * (E2 * P1) <= 2 ^ 33).
        { split.
          - apply Z.le_trans with (- (P2 * P1)); [lia|].
            replace (2 * (E2 * P1)) with ((2 * E2) * P1) by ring.
            replace (- (P2 * P1)) with ((- P2) * P1) by ring.
            apply Z.mul_le_mono_nonneg_r; lia.
          - apply Z.le_trans with (P2 * P1); [|lia].
            replace (2 * (E2 * P1)) with ((2 * E2) * P1) by ring.
            apply Z.mul_le_mono_nonneg_r; lia. }
        rewrite HT. clearbody E2 Y. 
        change (2 ^ 53) with 9007199254740992 in *.
        change (2 ^ 33) with 8589934592 in *.
        change (2 ^ 32) with 4294967296 in *. subst M. lia. }
  destruct Hsecond as (s2 & Y & Hs2 & Hsum & Hrne & Hlo & Hhi).
  rewrite Hrne. unfold trunc. cbn [mant expo].
  destruct (Z.leb_spec 0 (s1 - 53 + s2)) as [Hbad|_]; [lia|].
  replace (- (s1 - 53 + s2)) with (53 - s1 - s2) by lia.
  set (D := 2 ^ (53 - s1 - s2)).
  set (P2 := 2 ^ s2) in *.
  assert (HP2 : 0 < P2) by (apply Z.pow_pos_nonneg; lia).
  assert (HD : 0 < D) by (apply Z.pow_pos_nonneg; lia).
  assert (HDP : D * (P2 * P1) = 2 ^ 53).
  { unfold D, P1, P2. rewrite <- !Z.pow_add_r by lia. f_equal. lia. }
  assert (HPP : 0 < P2 * P1) by (apply Z.mul_pos_pos; assumption).
  rewrite <- HDP in Hlo, Hhi.
  symmetry. apply Z.div_unique with (r := Y - (a + F) * D).
  - left. split.
    + assert ((a + F) * D <= Y); [|lia].
      apply Z.mul_le_mono_pos_r with (P2 * P1); [assumption|].
      replace ((a + F) * D * (P2 * P1)) with ((a + F) * (D * (P2 * P1))) by ring.
      replace (Y * (P2 * P1)) with (Y * P2 * P1) by ring. exact Hlo.
    + assert (Y < (a + F + 1) * D); [|lia].
      apply Z.mul_lt_mono_pos_r with (P2 * P1); [assumption|].
      replace ((a + F + 1) * D * (P2 * P1)) with ((a + F + 1) * (D * (P2 * P1))) by ring.
      replace (Y * (P2 * P1)) with (Y * P2 * P1) by ring. exact Hhi.
  - ring.
Qed.

Lemma mid_exact a b :
  0 <= a <= b -> b <= ULONG_MAX -> mid a b = a + (b - a) * 653 / 1250.
Proof.
  intros Hab Hb. unfold mid, usub, wrap.
  change ULONG_MAX with 4294967295 in Hb. change (2 ^ ULONG_BITS) with 4294967296.
  rewrite (Z.mod_small (b - a)) by lia.
  rewrite !of_int_small by (change (2 ^ 53) with 9007199254740992; lia).
  rewrite mid_real by (change ULONG_MAX with 4294967295; lia).
  pose proof (Z.div_mod ((b - a) * 653) 1250 ltac:(lia)).
  pose proof (Z.mod_pos_bound ((b - a) * 653) 1250 ltac:(lia)).
  apply Z.mod_small. lia.
Qed.

(** ** Machine arithmetic, teams and the body of [bs] *)


Lemma wrap_small x : 0 <= x <= ULONG_MAX -> wrap x = x.
Proof. intros H. unfold wrap. apply Z.mod_small. unfold ULONG_MAX in H. lia. Qed.

Lemma usub_small a b : 0 <= a <= b -> b <= ULONG_MAX -> usub b a = b - a.
Proof. intros H1 H2. unfold usub. apply wrap_small. lia. Qed.

Lemma mid_between a b :
  0 <= a -> b <= ULONG_MAX -> 2 < b - a -> a < mid a b < b.
Proof.
  intros Ha Hb Hw. rewrite mid_exact by lia.
  pose proof (Z.div_mod ((b - a) * 653) 1250 ltac:(lia)).
  pose proof (Z.mod_pos_bound ((b - a) * 653) 1250 ltac:(lia)).
  lia.
Qed.

Lemma team_range rt a b k n : 1 <= n -> 1 <= team rt a b k n <= n.
Proof. unfold team. lia. Qed.

Lemma team_full rt a b k n : 1 <= n -> n <= rt a b k -> team rt a b k n = n.
Proof. unfold team. lia. Qed.

Lemma run_team_1 {S} (body : Z -> Z -> S -> option S) st :
  run_team 1 body st = body 0 1 st.
Proof. reflexivity. Qed.

Lemma run_team_2 {S} (body : Z -> Z -> S -> option S) st :
  run_team 2 body st
  = match body 0 2 st with Some s => body 1 2 s | None => None end.
Proof. reflexivity. Qed.

Lemma run_team_3 {S} (body : Z -> Z -> S -> option S) st :
  run_team 3 body st
  = match body 0 3 st with
    | Some s => match body 1 3 s with Some s' => body 2 3 s' | None => None end
    | None => None
    end.
Proof.
  unfold run_team. change (seq 0 (Z.to_nat 3)) with [0%nat; 1%nat; 2%nat].
  cbn [fold_left]. change (Z.of_nat 0) with 0. change (Z.of_nat 1) with 1.
  change (Z.of_nat 2) with 2.
  destruct (body 0 3 st) as [s|]; [destruct (body 1 3 s)|]; reflexivity.
Qed.

Lemma products_eq rt a b tds f lg :
  products rt a b tds (f, lg)
  = Some (merged (combine_team rt a b tds) f, lg ++ combine_marker rt a b tds).
Proof.
  unfold products, combine_team, combine_marker, forks. cbn [fst snd].
  destruct ((usub b a <? 1000) || (tds <? 3)); cbn [negb].
  - rewrite app_nil_r. reflexivity.
  - pose proof (team_range rt a b CombineRegion 3 ltac:(lia)) as Hj.
    assert (Hc : team rt a b CombineRegion 3 = 1 \/ team rt a b CombineRegion 3 = 2
                 \/ team rt a b CombineRegion 3 = 3) by lia.
    destruct Hc as [-> | [-> | ->]]; reflexivity.
Qed.

Section BodyEquations.

Variable rt : runtime.
Variable keep : Z -> bool.
Variable self : Z -> Z -> Z -> option (triple * list event).

Lemma children_eq a b tds :
  usub b a <> 2 ->
  children rt self a b tds
  = match self a (mid a b) (idiv tds 2) with
    | None => None
    | Some (tl, ll) =>
        match (if split_team rt a b tds =? 1 then Some (mkT 0 0 0, [])
               else self (mid a b) b (tds - idiv tds 2)) with
        | None => None
        | Some (tr, lr) =>
            Some (frame_of tl tr,
                  Call a b tds :: split_marker rt a b tds ++ ll ++ lr)
        end
    end.
Proof.
  intros Hw. unfold children, split_team, split_marker, forks.
  destruct (Z.eqb_spec (usub b a) 2) as [|_]; [contradiction|].
  destruct ((usub b a <? 1000) || (tds <? 2)); cbn [negb].
  - destruct (self a (mid a b) (idiv tds 2)) as [[tl ll]|]; [|reflexivity].
    cbn [store fst snd Z.eqb Pos.eqb].
    destruct (self (mid a b) b (tds - idiv tds 2)) as [[tr lr]|]; [|reflexivity].
    reflexivity.
  - pose proof (team_range rt a b SplitRegion 2 ltac:(lia)) as Hj.
    assert (Hc : team rt a b SplitRegion 2 = 1 \/ team rt a b SplitRegion 2 = 2) by lia.
    destruct Hc as [-> | ->].
    + rewrite run_team_1. cbn [Z.eqb Pos.eqb].
      destruct (self a (mid a b) (idiv tds 2)) as [[tl ll]|]; [|reflexivity].
      cbn [store fst snd app]. rewrite app_nil_r. reflexivity.
    + rewrite run_team_2. cbn [Z.eqb Pos.eqb orb].
      destruct (self a (mid a b) (idiv tds 2)) as [[tl ll]|]; [|reflexivity].
      cbn [store fst snd].
      destruct (self (mid a b) b (tds - idiv tds 2)) as [[tr lr]|]; [|reflexivity].
      cbn [store fst snd app]. reflexivity.
Qed.

Lemma bs_body_leaf a b tds :
  usub b a = 1 -> bs_body rt keep self a b tds = Some (leaf b, [Call a b tds]).
Proof. intros Hw. unfold bs_body. rewrite Hw. reflexivity. Qed.

Lemma bs_body_pair a b tds :
  usub b a = 2 ->
  bs_body rt keep self a b tds
  = Some (finish (keep b) (merged 3 (unrolled b)), [Call a b tds]).
Proof.
  intros Hw. unfold bs_body, children. rewrite Hw. cbn [Z.eqb Pos.eqb].
  rewrite products_eq. unfold combine_team, combine_marker, forks.
  rewrite Hw. reflexivity.
Qed.

Lemma bs_body_node a b tds :
  usub b a <> 1 -> usub b a <> 2 ->
  bs_body rt keep self a b tds
  = match self a (mid a b) (idiv tds 2) with
    | None => None
    | Some (tl, ll) =>
        match (if split_team rt a b tds =? 1 then Some (mkT 0 0 0, [])
               else self (mid a b) b (tds - idiv tds 2)) with
        | None => None
        | Some (tr, lr) =>
            Some (finish (keep b) (merged (combine_team rt a b tds) (frame_of tl tr)),
                  Call a b tds :: split_marker rt a b tds ++ ll ++ lr
                    ++ combine_marker rt a b tds)
        end
    end.
Proof.
  intros H1 H2. unfold bs_body.
  destruct (Z.eqb_spec (usub b a) 1) as [|_]; [contradiction|].
  rewrite children_eq by assumption.
  destruct (self a (mid a b) (idiv tds 2)) as [[tl ll]|]; [|reflexivity].
  destruct (if split_team rt a b tds =? 1 then _ else _) as [[tr lr]|]; [|reflexivity].
  rewrite products_eq. cbn [app]. rewrite <- !app_assoc. reflexivity.
Qed.

End BodyEquations.

Lemma finish_merged_full k l r :
  finish k (merged 3 (frame_of l r)) = combine_pruned k l r.
Proof. reflexivity. Qed.

Lemma unrolled_second_leaf b : unrolled_second b = leaf b.
Proof. reflexivity. Qed.

Lemma unrolled_first_leaf b :
  1 <= b <= ULONG_MAX + 1 -> unrolled_first b = leaf (b - 1).
Proof.
  intros Hb. unfold unrolled_first, leaf, term_p, term_q, term_g.
  rewrite (wrap_small (b - 1)) by lia. reflexivity.
Qed.

(** ** Termination *)


Lemma call_in_weaken lo hi lo' hi' e :
  lo' <= lo -> hi <= hi' -> call_in lo hi e -> call_in lo' hi' e.
Proof. destruct e; cbn; lia. Qed.

Lemma calls_in_weaken lo hi lo' hi' lg :
  lo' <= lo -> hi <= hi' -> Forall (call_in lo hi) lg -> Forall (call_in lo' hi') lg.
Proof. intros H1 H2. apply Forall_impl. intros e. apply call_in_weaken; assumption. Qed.

Lemma split_marker_calls rt a b tds lo hi :
  Forall (call_in lo hi) (split_marker rt a b tds).
Proof. unfold split_marker. destruct (forks a b tds 2); repeat constructor. Qed.

Lemma combine_marker_calls rt a b tds lo hi :
  Forall (call_in lo hi) (combine_marker rt a b tds).
Proof. unfold combine_marker. destruct (forks a b tds 3); repeat constructor. Qed.

Section Totality.

Variable rt : runtime.
Variable keep : Z -> bool.

(** A call on a well-formed range returns once the fuel covers the
    width, and every call it makes is on a well-formed sub-range. *)
Lemma bs_gen_total fuel : forall a b tds,
  0 <= a -> a < b -> b <= ULONG_MAX -> b - a <= Z.of_nat fuel ->
  exists t lg, bs_gen rt keep fuel a b tds = Some (t, Call a b tds :: lg)
               /\ Forall (call_in a b) lg.
Proof.
  induction fuel as [|fuel IH]; intros a b tds Ha Hab Hb Hf; [lia|].
  cbn [bs_gen]. pose proof (usub_small a b ltac:(lia) Hb) as Hu.
  destruct (Z.eq_dec (b - a) 1) as [H1|H1].
  { rewrite bs_body_leaf by lia. eexists _, _. split; [reflexivity|constructor]. }
  destruct (Z.eq_dec (b - a) 2) as [H2|H2].
  { rewrite bs_body_pair by lia. eexists _, _. split; [reflexivity|constructor]. }
  rewrite bs_body_node by lia.
  pose proof (mid_between a b Ha Hb ltac:(lia)) as Hm.
  destruct (IH a (mid a b) (idiv tds 2)) as (tl & ll & -> & Hll); try lia.
  destruct (split_team rt a b tds =? 1).
  - eexists _, _. split; [reflexivity|].
    rewrite !Forall_app. repeat split.
    + apply split_marker_calls.
    + constructor; [cbn; lia|]. apply calls_in_weaken with a (mid a b); (lia || assumption).
    + constructor.
    + apply combine_marker_calls.
  - destruct (IH (mid a b) b (tds - idiv tds 2)) as (tr & lr & -> & Hlr); try lia.
    eexists _, _. split; [reflexivity|].
    rewrite !Forall_app. repeat split.
    + apply split_marker_calls.
    + constructor; [cbn; lia|]. apply calls_in_weaken with a (mid a b); (lia || assumption).
    + constructor; [cbn; lia|]. apply calls_in_weaken with (mid a b) b; (lia || assumption).
    + apply combine_marker_calls.
Qed.

End Totality.

(** ** Budgets and serial runs *)


Lemma budget_halves tds :
  tds < 2 -> idiv tds 2 < 2 /\ tds - idiv tds 2 < 2.
Proof.
  intros H. unfold idiv.
  pose proof (Z.quot_rem' tds 2) as Hq.
  destruct (Z.le_gt_cases 0 tds) as [Hp|Hn].
  - pose proof (Z.rem_bound_pos tds 2 Hp ltac:(lia)). lia.
  - pose proof (Z.rem_bound_pos_neg tds 2 ltac:(lia) ltac:(lia)). lia.
Qed.

Lemma budget_halves_nonneg tds :
  0 <= tds -> idiv tds 2 = tds / 2 /\ 0 <= idiv tds 2 /\ 0 <= tds - idiv tds 2.
Proof.
  intros H. unfold idiv. rewrite Z.quot_div_nonneg by lia.
  pose proof (Z.div_mod tds 2 ltac:(lia)). pose proof (Z.mod_pos_bound tds 2 ltac:(lia)).
  lia.
Qed.

Lemma forks_budget a b tds n : tds < n -> forks a b tds n = false.
Proof.
  intros H. unfold forks. destruct (Z.ltb_spec tds n); [|lia].
  rewrite orb_true_r. reflexivity.
Qed.

Lemma forks_iff a b tds n :
  forks a b tds n = true <-> 1000 <= usub b a /\ n <= tds.
Proof.
  unfold forks. destruct (Z.ltb_spec (usub b a) 1000), (Z.ltb_spec tds n);
    cbn; split; intros; try discriminate; try lia; reflexivity.
Qed.

Lemma combine_team_range rt a b tds : 1 <= combine_team rt a b tds <= 3.
Proof.
  unfold combine_team. destruct (forks a b tds 3); [apply team_range|]; lia.
Qed.

Lemma split_team_range rt a b tds : 1 <= split_team rt a b tds <= 2.
Proof.
  unfold split_team. destruct (forks a b tds 2); [apply team_range|]; lia.
Qed.

Lemma finish_merged j k l r :
  1 <= j <= 3 ->
  finish k (merged j (frame_of l r))
  = mkT (tP l * tP r)
        ((if j =? 1 then tQ l else tQ l * tP r)
         + (if j <? 3 then tQ r else tQ r * tG l))
        (if k then tG l * tG r else tG l).
Proof.
  intros Hj. assert (Hc : j = 1 \/ j = 2 \/ j = 3) by lia.
  destruct Hc as [-> | [-> | ->]]; reflexivity.
Qed.

Section Serial.

Variables rt rt' : runtime.
Variable keep : Z -> bool.

(** Below a budget of 2 no region is opened, and neither the runtime
    nor the budget has any influence. *)
Lemma bs_gen_serial fuel : forall a b tds tds',
  tds < 2 -> tds' < 2 ->
  option_map fst (bs_gen rt keep fuel a b tds)
  = option_map fst (bs_gen rt' keep fuel a b tds').
Proof.
  induction fuel as [|fuel IH]; intros a b tds tds' Ht Ht'; [reflexivity|].
  cbn [bs_gen].
  destruct (Z.eq_dec (usub b a) 1) as [H1|H1].
  { rewrite !bs_body_leaf by assumption. reflexivity. }
  destruct (Z.eq_dec (usub b a) 2) as [H2|H2].
  { rewrite !bs_body_pair by assumption. reflexivity. }
  rewrite !bs_body_node by assumption.
  unfold split_team, combine_team.
  rewrite !forks_budget by lia. cbn [Z.eqb Pos.eqb].
  destruct (budget_halves tds Ht) as [Hl Hr].
  destruct (budget_halves tds' Ht') as [Hl' Hr'].
  pose proof (IH a (mid a b) _ _ Hl Hl') as IHl.
  pose proof (IH (mid a b) b _ _ Hr Hr') as IHr.
  destruct (bs_gen rt keep fuel a (mid a b) (idiv tds 2)) as [[tl ll]|],
           (bs_gen rt' keep fuel a (mid a b) (idiv tds' 2)) as [[tl' ll']|];
    cbn in IHl; try discriminate; [|reflexivity].
  injection IHl as <-.
  destruct (bs_gen rt keep fuel (mid a b) b (tds - idiv tds 2)) as [[tr lr]|],
           (bs_gen rt' keep fuel (mid a b) b (tds' - idiv tds' 2)) as [[tr' lr']|];
    cbn in IHr; try discriminate; [|reflexivity].
  injection IHr as <-. reflexivity.
Qed.

Lemma bs_gen_serial_log fuel : forall a b tds t lg,
  tds < 2 -> bs_gen rt keep fuel a b tds = Some (t, lg) ->
  forallb is_call lg = true.
Proof.
  induction fuel as [|fuel IH]; intros a b tds t lg Ht; [discriminate|].
  cbn [bs_gen].
  destruct (Z.eq_dec (usub b a) 1) as [H1|H1].
  { rewrite bs_body_leaf by assumption. intros [= <- <-]. reflexivity. }
  destruct (Z.eq_dec (usub b a) 2) as [H2|H2].
  { rewrite bs_body_pair by assumption. intros [= <- <-]. reflexivity. }
  rewrite bs_body_node by assumption.
  unfold split_team, combine_team, split_marker, combine_marker.
  rewrite !forks_budget by lia. cbn [Z.eqb Pos.eqb app].
  destruct (budget_halves tds Ht) as [Hl Hr].
  destruct (bs_gen rt keep fuel a (mid a b) (idiv tds 2)) as [[tl ll]|] eqn:El;
    [|discriminate].
  destruct (bs_gen rt keep fuel (mid a b) b (tds - idiv tds 2)) as [[tr lr]|] eqn:Er;
    [|discriminate].
  intros [= <- <-]. cbn [forallb is_call andb].
  rewrite app_nil_r, forallb_app.
  rewrite (IH _ _ _ _ _ Hl El), (IH _ _ _ _ _ Hr Er). reflexivity.
Qed.

End Serial.

(** ** Pruning of the last product *)


Lemma wrap_range x : 0 <= wrap x <= ULONG_MAX.
Proof.
  unfold wrap, ULONG_MAX.
  pose proof (Z.mod_pos_bound x (2 ^ ULONG_BITS) ltac:(reflexivity)). lia.
Qed.

Lemma unrolled_frame b :
  1 <= b <= ULONG_MAX + 1 -> unrolled b = frame_of (leaf (b - 1)) (leaf b).
Proof.
  intros Hb. unfold unrolled, frame_of.
  rewrite unrolled_first_leaf, unrolled_second_leaf by assumption. reflexivity.
Qed.

Section Pruning.

Variable rt : runtime.
Variable terms : Z.

(** Skipping the product of the [G] values at the right edge changes
    neither [P] nor [Q] nor the calls made, whatever the runtime. *)
Lemma prune_invariant fuel : forall a b tds,
  0 <= a -> a < b -> b <= wrap terms -> b - a <= Z.of_nat fuel ->
  exists t t' lg,
    bs rt terms fuel a b tds = Some (t, lg)
    /\ bs_always_g rt fuel a b tds = Some (t', lg)
    /\ tP t = tP t' /\ tQ t = tQ t' /\ (b < wrap terms -> tG t = tG t').
Proof.
  unfold bs, bs_always_g.
  induction fuel as [|fuel IH]; intros a b tds Ha Hab Hb Hf; [lia|].
  pose proof (wrap_range terms) as HT.
  cbn [bs_gen]. pose proof (usub_small a b ltac:(lia) ltac:(lia)) as Hu.
  destruct (Z.eq_dec (b - a) 1) as [H1|H1].
  { rewrite !bs_body_leaf by lia. eexists _, _, _. repeat split. }
  destruct (Z.eq_dec (b - a) 2) as [H2|H2].
  { rewrite !bs_body_pair by lia. eexists _, _, _.
    split; [reflexivity|]. split; [reflexivity|].
    rewrite unrolled_frame, !finish_merged_full by lia. cbn [combine_pruned tP tQ tG].
    repeat split. intros Hlt. destruct (Z.ltb_spec b (wrap terms)); [reflexivity|lia]. }
  rewrite !bs_body_node by lia.
  pose proof (mid_between a b Ha ltac:(lia) ltac:(lia)) as Hm.
  destruct (IH a (mid a b) (idiv tds 2)) as (tl & tl' & ll & -> & -> & HlP & HlQ & HlG);
    try lia.
  specialize (HlG ltac:(lia)).
  pose proof (combine_team_range rt a b tds) as Hj.
  destruct (split_team rt a b tds =? 1).
  - eexists _, _, _. split; [reflexivity|]. split; [reflexivity|].
    rewrite !finish_merged by assumption. cbn [tP tQ tG].
    rewrite HlP, HlQ, HlG. repeat split.
    intros Hlt. destruct (Z.ltb_spec b (wrap terms)); [reflexivity|lia].
  - destruct (IH (mid a b) b (tds - idiv tds 2))
      as (tr & tr' & lr & -> & -> & HrP & HrQ & HrG); try lia.
    eexists _, _, _. split; [reflexivity|]. split; [reflexivity|].
    rewrite !finish_merged by assumption. cbn [tP tQ tG].
    rewrite HlP, HlQ, HlG, HrP, HrQ. repeat split.
    intros Hlt. destruct (Z.ltb_spec b (wrap terms)); [|lia].
    rewrite (HrG Hlt). reflexivity.
Qed.

End Pruning.

(** ** The combination rule is associative *)

Lemma combine_rule_assoc x y z :
  combine_rule (combine_rule x y) z = combine_rule x (combine_rule y z).
Proof. unfold combine_rule. cbn [tP tQ tG]. f_equal; ring. Qed.

Lemma combine_rule_unit_r x : combine_rule x (mkT 1 0 1) = x.
Proof. destruct x as [p q g]. unfold combine_rule. cbn [tP tQ tG]. f_equal; ring. Qed.

Lemma combine_rule_unit_l x : combine_rule (mkT 1 0 1) x = x.
Proof. destruct x as [p q g]. unfold combine_rule. cbn [tP tQ tG]. f_equal; ring. Qed.

Lemma range_ref_app a n1 n2 :
  range_ref a (n1 + n2)
  = combine_rule (range_ref a n1) (range_ref (a + Z.of_nat n1) n2).
Proof.
  induction n2 as [|n2 IH].
  - rewrite Nat.add_0_r. cbn [range_ref]. rewrite combine_rule_unit_r. reflexivity.
  - rewrite Nat.add_succ_r. cbn [range_ref]. rewrite IH, combine_rule_assoc.
    do 3 f_equal. lia.
Qed.

Lemma range_ref_one a : range_ref a 1 = leaf (a + 1).
Proof. cbn [range_ref]. rewrite combine_rule_unit_l. f_equal. cbn. lia. Qed.

Lemma range_ref_split a m b :
  a <= m <= b ->
  range_ref a (Z.to_nat (b - a))
  = combine_rule (range_ref a (Z.to_nat (m - a))) (range_ref m (Z.to_nat (b - m))).
Proof.
  intros H. replace (Z.to_nat (b - a)) with (Z.to_nat (m - a) + Z.to_nat (b - m))%nat by lia.
  rewrite range_ref_app. do 2 f_equal. lia.
Qed.

(** ** Direct evaluation *)


Lemma split_team_complete rt a b tds :
  grants_all rt \/ tds < 2 -> split_team rt a b tds = 2.
Proof.
  intros [Hg|Ht]; unfold split_team.
  - destruct (forks a b tds 2); [|reflexivity]. apply team_full; [lia|apply Hg].
  - rewrite forks_budget by lia. reflexivity.
Qed.

Lemma combine_team_complete rt a b tds :
  grants_all rt \/ tds < 2 -> combine_team rt a b tds = 3.
Proof.
  intros [Hg|Ht]; unfold combine_team.
  - destruct (forks a b tds 3); [|reflexivity]. apply team_full; [lia|apply Hg].
  - rewrite forks_budget by lia. reflexivity.
Qed.

Section Reference.

Variable rt : runtime.
Variable terms : Z.

(** With complete teams, or serially, a call on a range inside
    [0, terms] returns the direct evaluation of its terms; the [G]
    value is the direct one when the range ends before [terms]. *)
Lemma bs_reference fuel : forall a b tds,
  grants_all rt \/ tds < 2 ->
  0 <= a -> a < b -> b <= wrap terms -> b - a <= Z.of_nat fuel ->
  exists t lg,
    bs rt terms fuel a b tds = Some (t, lg)
    /\ tP t = tP (range_ref a (Z.to_nat (b - a)))
    /\ tQ t = tQ (range_ref a (Z.to_nat (b - a)))
    /\ (b < wrap terms -> tG t = tG (range_ref a (Z.to_nat (b - a)))).
Proof.
  unfold bs.
  induction fuel as [|fuel IH]; intros a b tds Hc Ha Hab Hb Hf; [lia|].
  pose proof (wrap_range terms) as HT.
  cbn [bs_gen]. pose proof (usub_small a b ltac:(lia) ltac:(lia)) as Hu.
  destruct (Z.eq_dec (b - a) 1) as [H1|H1].
  { rewrite bs_body_leaf by lia. eexists _, _. split; [reflexivity|].
    rewrite H1. change (Z.to_nat 1) with 1%nat. rewrite range_ref_one.
    replace (a + 1) with b by lia. repeat split. }
  destruct (Z.eq_dec (b - a) 2) as [H2|H2].
  { rewrite bs_body_pair by lia. eexists _, _. split; [reflexivity|].
    rewrite unrolled_frame, finish_merged_full by lia.
    rewrite (range_ref_split a (b - 1) b) by lia.
    replace (b - 1 - a) with 1 by lia. replace (b - (b - 1)) with 1 by lia.
    change (Z.to_nat 1) with 1%nat. rewrite !range_ref_one.
    replace (a + 1) with (b - 1) by lia. replace (b - 1 + 1) with b by lia.
    cbn [combine_pruned combine_rule tP tQ tG]. repeat split.
    intros Hlt. destruct (Z.ltb_spec b (wrap terms)); [reflexivity|lia]. }
  rewrite bs_body_node by lia.
  pose proof (mid_between a b Ha ltac:(lia) ltac:(lia)) as Hm.
  assert (Hcl : grants_all rt \/ idiv tds 2 < 2).
  { destruct Hc as [Hg|Ht]; [left; assumption|right; apply budget_halves; assumption]. }
  assert (Hcr : grants_all rt \/ tds - idiv tds 2 < 2).
  { destruct Hc as [Hg|Ht]; [left; assumption|right; apply budget_halves; assumption]. }
  destruct (IH a (mid a b) (idiv tds 2) Hcl) as (tl & ll & -> & HlP & HlQ & HlG); try lia.
  specialize (HlG ltac:(lia)).
  rewrite split_team_complete, combine_team_complete by assumption.
  cbn [Z.eqb Pos.eqb].
  destruct (IH (mid a b) b (tds - idiv tds 2) Hcr) as (tr & lr & -> & HrP & HrQ & HrG);
    try lia.
  eexists _, _. split; [reflexivity|].
  rewrite finish_merged_full, (range_ref_split a (mid a b) b) by lia.
  cbn [combine_pruned combine_rule tP tQ tG].
  rewrite HlP, HlQ, HlG, HrP, HrQ. repeat split.
  intros Hlt. destruct (Z.ltb_spec b (wrap terms)); [|lia].
  rewrite (HrG Hlt). reflexivity.
Qed.

End Reference.

Lemma split_team_whole rt a b tds :
  0 <= a -> a <= b -> b <= ULONG_MAX ->
  grants_all rt \/ tds < 2 \/ b - a < 1000 -> split_team rt a b tds = 2.
Proof.
  intros Ha Hab Hb [Hg|[Ht|Hw]].
  - apply split_team_complete; left; assumption.
  - apply split_team_complete; right; assumption.
  - unfold split_team, forks. rewrite usub_small by lia.
    destruct (Z.ltb_spec (b - a) 1000); [reflexivity|lia].
Qed.

Lemma combine_team_whole rt a b tds :
  0 <= a -> a <= b -> b <= ULONG_MAX ->
  grants_all rt \/ tds < 2 \/ b - a < 1000 -> combine_team rt a b tds = 3.
Proof.
  intros Ha Hab Hb [Hg|[Ht|Hw]].
  - apply combine_team_complete; left; assumption.
  - apply combine_team_complete; right; assumption.
  - unfold combine_team, forks. rewrite usub_small by lia.
    destruct (Z.ltb_spec (b - a) 1000); [reflexivity|lia].
Qed.

(** The same for every evaluation that opens no incomplete team: complete
    teams, a budget below 2, or a range narrower than 1000.  At the right
    edge, where the product of the [G] values is skipped, [G] is that of
    the left half of the call. *)
Section ReferenceWhole.

Variable rt : runtime.
Variable terms : Z.

Lemma bs_reference_whole fuel : forall a b tds,
  grants_all rt \/ tds < 2 \/ b - a < 1000 ->
  0 <= a -> a < b -> b <= wrap terms -> b - a <= Z.of_nat fuel ->
  exists t lg,
    bs rt terms fuel a b tds = Some (t, lg)
    /\ tP t = tP (range_ref a (Z.to_nat (b - a)))
    /\ tQ t = tQ (range_ref a (Z.to_nat (b - a)))
    /\ (b < wrap terms -> tG t = tG (range_ref a (Z.to_nat (b - a))))
    /\ (2 <= b - a -> b = wrap terms ->
        tG t = tG (range_ref a (Z.to_nat (mid a b - a)))).
Proof.
  unfold bs.
  induction fuel as [|fuel IH]; intros a b tds Hc Ha Hab Hb Hf; [lia|].
  pose proof (wrap_range terms) as HT.
  cbn [bs_gen]. pose proof (usub_small a b ltac:(lia) ltac:(lia)) as Hu.
  destruct (Z.eq_dec (b - a) 1) as [H1|H1].
  { rewrite bs_body_leaf by lia. eexists _, _. split; [reflexivity|].
    rewrite H1. change (Z.to_nat 1) with 1%nat. rewrite range_ref_one.
    replace (a + 1) with b by lia. repeat split. lia. }
  destruct (Z.eq_dec (b - a) 2) as [H2|H2].
  { rewrite bs_body_pair by lia. eexists _, _. split; [reflexivity|].
    rewrite unrolled_frame, finish_merged_full by lia.
    assert (Hm : mid a b = a + 1).
    { rewrite mid_exact by lia. rewrite H2. reflexivity. }
    rewrite Hm.
    rewrite (range_ref_split a (b - 1) b) by lia.
    replace (b - 1 - a) with 1 by lia. replace (b - (b - 1)) with 1 by lia.
    replace (a + 1 - a) with 1 by lia.
    change (Z.to_nat 1) with 1%nat. rewrite !range_ref_one.
    replace (a + 1) with (b - 1) by lia. replace (b - 1 + 1) with b by lia.
    cbn [combine_pruned combine_rule tP tQ tG]. repeat split.
    - intros Hlt. destruct (Z.ltb_spec b (wrap terms)); [reflexivity|lia].
    - intros _ He. destruct (Z.ltb_spec b (wrap terms)); [lia|reflexivity]. }
  rewrite bs_body_node by lia.
  pose proof (mid_between a b Ha ltac:(lia) ltac:(lia)) as Hm.
  assert (Hcl : grants_all rt \/ idiv tds 2 < 2 \/ mid a b - a < 1000).
  { destruct Hc as [Hg|[Ht|Hw]]; [left; assumption| |right; right; lia].
    right; left; apply budget_halves; assumption. }
  assert (Hcr : grants_all rt \/ tds - idiv tds 2 < 2 \/ b - mid a b < 1000).
  { destruct Hc as [Hg|[Ht|Hw]]; [left; assumption| |right; right; lia].
    right; left; apply budget_halves; assumption. }
  destruct (IH a (mid a b) (idiv tds 2) Hcl) as (tl & ll & -> & HlP & HlQ & HlG & _); try lia.
  specialize (HlG ltac:(lia)).
  rewrite split_team_whole, combine_team_whole by (assumption || lia).
  cbn [Z.eqb Pos.eqb].
  destruct (IH (mid a b) b (tds - idiv tds 2) Hcr) as (tr & lr & -> & HrP & HrQ & HrG & _);
    try lia.
  eexists _, _. split; [reflexivity|].
  rewrite finish_merged_full, (range_ref_split a (mid a b) b) by lia.
  cbn [combine_pruned combine_rule tP tQ tG].
  rewrite HlP, HlQ, HlG, HrP, HrQ. repeat split.
  - intros Hlt. destruct (Z.ltb_spec b (wrap terms)); [|lia].
    rewrite (HrG Hlt). reflexivity.
  - intros _ He. destruct (Z.ltb_spec b (wrap terms)); [lia|reflexivity].
Qed.

End ReferenceWhole.

(** ** Width 1, width 2 and the empty evaluation *)


Lemma leaf_exact b :
  1 <= b -> 6 * b - 1 <= ULONG_MAX -> leaf b = term_exact b.
Proof.
  intros Hb Hmax. unfold leaf, term_exact, term_p, term_q, term_g.
  rewrite !wrap_small by lia.
  assert (Hq : (if b mod 2 =? 0
                then (b * B + A) * ((2 * b - 1) * (6 * b - 1) * (6 * b - 5))
                else - ((b * B + A) * ((2 * b - 1) * (6 * b - 1) * (6 * b - 5))))
               = (if Z.odd b
                  then - ((6 * b - 5) * (2 * b - 1) * (6 * b - 1) * (A + B * b))
                  else (6 * b - 5) * (2 * b - 1) * (6 * b - 1) * (A + B * b))).
  { rewrite Zmod_odd. destruct (Z.odd b); cbn [Z.eqb]; ring. }
  rewrite Hq. f_equal.
  - change (C / 24 * (C / 24)) with 711822400. change (C * 24) with 15367680.
    change (C ^ 3 / 24) with 10939058860032000. ring.
  - ring.
Qed.

(** C2, as stated, fails where [6*b-1] no longer fits an
    [unsigned long]: for [b = 2^31] the factors of [G] wrap around. *)
Lemma C2_counterexample :
  exists t lg,
    bs one_thread 2147483648 1 2147483647 2147483648 0 = Some (t, lg)
    /\ t <> term_exact 2147483648.
Proof.
  eexists _, _. split; [vm_compute; reflexivity|]. vm_compute. discriminate.
Qed.

(** C2 (amended): for every [b >= 1] with [6*b-1] representable as an
    [unsigned long], evaluating the width-1 range [[b-1, b)] returns
    exactly [G = (6b-5)(2b-1)(6b-1)], [P = b^3 * C^3/24] and
    [Q = G * (A + B*b)], negated if and only if [b] is odd, whatever the
    budget, the term count and the runtime. *)
Theorem C2_single_term rt terms fuel b tds :
  1 <= b -> 6 * b - 1 <= ULONG_MAX ->
  bs rt terms (S fuel) (b - 1) b tds
  = Some (term_exact b, [Call (b - 1) b tds]).
Proof.
  intros Hb Hmax. unfold bs. cbn [bs_gen].
  rewrite bs_body_leaf by (rewrite usub_small; lia).
  rewrite leaf_exact by assumption. reflexivity.
Qed.

Lemma C2_single_term_witness :
  bs full_teams 1 1 (1 - 1) 1 0 = Some (term_exact 1, [Call (1 - 1) 1 0]).
Proof.
  apply (C2_single_term full_teams 1 0%nat 1 0); vm_compute; discriminate.
Defined.

(** C7: for every [b >= 2], the unrolled width-2 path on [[b-2, b)]
    returns the triple obtained by evaluating [[b-2, b-1)] and
    [[b-1, b)] as width-1 ranges and merging them with the combine step
    of [bs] (the product of the [G] values being formed only while
    [b < terms]). *)
Theorem C7_unrolled_width_two rt terms fuel b tds tdl tdr :
  2 <= b -> b <= ULONG_MAX ->
  exists tl tr,
    bs rt terms (S fuel) (b - 2) (b - 1) tdl = Some (tl, [Call (b - 2) (b - 1) tdl])
    /\ bs rt terms (S fuel) (b - 1) b tdr = Some (tr, [Call (b - 1) b tdr])
    /\ bs rt terms (S fuel) (b - 2) b tds
       = Some (combine_pruned (b <? wrap terms) tl tr, [Call (b - 2) b tds]).
Proof.
  intros Hb Hmax. exists (leaf (b - 1)), (leaf b). unfold bs. cbn [bs_gen].
  rewrite !bs_body_leaf by (rewrite usub_small; lia).
  rewrite bs_body_pair by (rewrite usub_small; lia).
  rewrite unrolled_frame, finish_merged_full by lia.
  repeat split.
Qed.

Lemma C7_unrolled_width_two_witness :
  exists tl tr,
    bs full_teams 5 1 (2 - 2) (2 - 1) 0 = Some (tl, [Call (2 - 2) (2 - 1) 0])
    /\ bs full_teams 5 1 (2 - 1) 2 0 = Some (tr, [Call (2 - 1) 2 0])
    /\ bs full_teams 5 1 (2 - 2) 2 0
       = Some (combine_pruned (2 <? wrap 5) tl tr, [Call (2 - 2) 2 0]).
Proof.
  apply (C7_unrolled_width_two full_teams 5 0%nat 2 0 0 0); vm_compute; discriminate.
Defined.

(** C9: with a term count of 0 the driver returns [P = 1], [Q = 0] and
    the evaluator is never called: the log of the run is empty, even
    when no fuel at all is available. *)
Theorem C9_zero_terms rt fuel threads :
  evaluate_terms rt fuel 0 threads = Some (1, 0, []).
Proof. reflexivity. Qed.

(** ** Split point, termination, small budgets, pruning *)


(** C10: for every range of [unsigned long] bounds whose width exceeds
    2, the split point computed in [double] arithmetic is
    [a + floor((b-a) * 0.5224)] and lies strictly between [a] and [b];
    and every call on a range with [a < b] returns, all the calls it
    makes being on ranges [a' < b'] inside [[a, b)]. *)
Theorem C10_split_point_and_termination rt terms a b tds :
  0 <= a -> a < b -> b <= ULONG_MAX ->
  (2 < b - a ->
   mid a b = a + (b - a) * 653 / 1250 /\ a < mid a b < b
   /\ 0 < mid a b - a < b - a /\ 0 < b - mid a b < b - a)
  /\ exists fuel t lg,
       bs rt terms fuel a b tds = Some (t, Call a b tds :: lg)
       /\ Forall (call_in a b) lg.
Proof.
  intros Ha Hab Hb. split.
  - intros Hw. pose proof (mid_between a b Ha Hb Hw).
    split; [apply mid_exact; lia|]. lia.
  - exists (Z.to_nat (b - a)).
    apply bs_gen_total; lia.
Qed.

Lemma C10_split_point_and_termination_witness :
  (2 < 10 - 0 ->
   mid 0 10 = 0 + (10 - 0) * 653 / 1250 /\ 0 < mid 0 10 < 10
   /\ 0 < mid 0 10 - 0 < 10 - 0 /\ 0 < 10 - mid 0 10 < 10 - 0)
  /\ exists fuel t lg,
       bs full_teams 10 fuel 0 10 4 = Some (t, Call 0 10 4 :: lg)
       /\ Forall (call_in 0 10) lg.
Proof.
  apply (C10_split_point_and_termination full_teams 10 0 10 4); vm_compute;
    discriminate || reflexivity.
Defined.

(** C8: for every range with [a < b] and every budget below 2, negative
    ones included, the evaluation returns, opens no parallel region
    anywhere, and returns the triple that budget 0 returns. *)
Theorem C8_small_budget_is_serial rt terms a b tds :
  0 <= a -> a < b -> b <= ULONG_MAX -> tds < 2 ->
  exists fuel t lg lg0,
    bs rt terms fuel a b tds = Some (t, lg)
    /\ bs rt terms fuel a b 0 = Some (t, lg0)
    /\ forallb is_call lg = true.
Proof.
  intros Ha Hab Hb Ht. set (fuel := Z.to_nat (b - a)).
  destruct (bs_gen_total rt (fun b => b <? wrap terms) fuel a b tds)
    as (t & lg & Hrun & _); try (subst fuel; lia).
  destruct (bs_gen_total rt (fun b => b <? wrap terms) fuel a b 0)
    as (t0 & lg0 & Hrun0 & _); try (subst fuel; lia).
  pose proof (bs_gen_serial rt rt (fun b => b <? wrap terms) fuel a b tds 0 Ht ltac:(lia))
    as Heq.
  rewrite Hrun, Hrun0 in Heq. cbn in Heq. injection Heq as <-.
  exists fuel, t, (Call a b tds :: lg), (Call a b 0 :: lg0).
  split; [exact Hrun|]. split; [exact Hrun0|].
  exact (bs_gen_serial_log rt _ fuel a b tds t _ Ht Hrun).
Qed.

Lemma C8_small_budget_is_serial_witness :
  exists fuel t lg lg0,
    bs one_thread 7 fuel 0 7 (-3) = Some (t, lg)
    /\ bs one_thread 7 fuel 0 7 0 = Some (t, lg0)
    /\ forallb is_call lg = true.
Proof.
  apply (C8_small_budget_is_serial one_thread 7 0 7 (-3)); vm_compute;
    discriminate || reflexivity.
Defined.

(** C5: for every term count [terms >= 1], the evaluation of
    [[0, terms)] that skips the product of the [G] values at the right
    edge returns the [P] and [Q] of the evaluation that always forms
    it, with the same calls, whatever the budget and the runtime. *)
Theorem C5_pruning_keeps_root rt terms threads :
  1 <= terms -> terms <= LONG_MAX ->
  exists fuel t' lg,
    evaluate_terms rt fuel terms threads = Some (tP t', tQ t', lg)
    /\ bs_always_g rt fuel 0 terms threads = Some (t', lg).
Proof.
  intros H1 Hmax. change LONG_MAX with 2147483647 in Hmax.
  assert (Hw : wrap terms = terms) by (apply wrap_small; change ULONG_MAX with 4294967295; lia).
  exists (Z.to_nat terms).
  destruct (prune_invariant rt terms (Z.to_nat terms) 0 terms threads)
    as (t & t' & lg & Hrun & Hrun' & HP & HQ & _); try lia.
  exists t', lg. split; [|exact Hrun'].
  unfold evaluate_terms. destruct (Z.leb_spec terms 0); [lia|].
  rewrite Hw, Hrun, HP, HQ. reflexivity.
Qed.

Lemma C5_pruning_keeps_root_witness :
  exists fuel t' lg,
    evaluate_terms full_teams fuel 5 4 = Some (tP t', tQ t', lg)
    /\ bs_always_g full_teams fuel 0 5 4 = Some (t', lg).
Proof.
  apply (C5_pruning_keeps_root full_teams 5 4); vm_compute; discriminate.
Defined.

(** ** The combination rule *)


Lemma triple_eta (t : triple) : t = mkT (tP t) (tQ t) (tG t).
Proof. destruct t; reflexivity. Qed.

(** C1, as stated, fails at the right edge of the evaluation: with 3
    terms, [bs] on [[0, 3)] leaves [G] at the value of its left half,
    which is not the product the rule prescribes for [[0,1)] and
    [[1,3)]. *)
Lemma C1_counterexample :
  exists tl tr t ll lr lg,
    bs full_teams 3 3 0 1 0 = Some (tl, ll)
    /\ bs full_teams 3 3 1 3 0 = Some (tr, lr)
    /\ bs full_teams 3 3 0 3 0 = Some (t, lg)
    /\ t <> combine_rule tl tr.
Proof.
  eexists _, _, _, _, _, _.
  split; [vm_compute; reflexivity|]. split; [vm_compute; reflexivity|].
  split; [vm_compute; reflexivity|]. vm_compute. discriminate.
Qed.

(** C1 (amended): for every range with [0 <= a < m < b <= terms], each
    of the three evaluations being run with complete teams or serially
    (a budget below 2 or a width below 1000, so that no region is
    opened), the [P] and [Q] that [bs] returns for [[a, b)] are those of
    the combination rule applied to what it returns for [[a, m)] and
    [[m, b)], for every internal point [m]; when [b < terms] the whole
    triple, [G] included, is the combination; when [b = terms] the
    product of the [G] values is skipped and [G] is the one that [bs]
    returns for [[a, mid a b)], the left half at its own split point,
    whatever [m] is. *)
Theorem C1_combination_any_split rt terms a m b tds tdl tdr :
  grants_all rt
  \/ ((tds < 2 \/ b - a < 1000) /\ (tdl < 2 \/ m - a < 1000)
      /\ (tdr < 2 \/ b - m < 1000)) ->
  0 <= a -> a < m -> m < b -> b <= terms -> terms <= ULONG_MAX ->
  exists fuel tl tr t th ll lr lg lh,
    bs rt terms fuel a m tdl = Some (tl, ll)
    /\ bs rt terms fuel m b tdr = Some (tr, lr)
    /\ bs rt terms fuel a b tds = Some (t, lg)
    /\ bs rt terms fuel a (mid a b) (Z.quot tds 2) = Some (th, lh)
    /\ tP t = tP (combine_rule tl tr)
    /\ tQ t = tQ (combine_rule tl tr)
    /\ (b < terms -> t = combine_rule tl tr)
    /\ (b = terms -> tG t = tG th).
Proof.
  intros Hc Ha Ham Hmb Hb Hmax.
  assert (Hw : wrap terms = terms) by (apply wrap_small; lia).
  set (fuel := Z.to_nat (b - a)).
  assert (Hmid : a < mid a b < b).
  { destruct (Z.eq_dec (b - a) 2) as [H2|H2].
    - rewrite mid_exact by lia. rewrite H2. change (2 * 653 / 1250) with 1. lia.
    - apply mid_between; lia. }
  destruct (bs_reference_whole rt terms fuel a m tdl) as (tl & ll & Hl & HlP & HlQ & HlG & _);
    try (subst fuel; lia); [tauto|].
  destruct (bs_reference_whole rt terms fuel m b tdr) as (tr & lr & Hr & HrP & HrQ & HrG & _);
    try (subst fuel; lia); [tauto|].
  destruct (bs_reference_whole rt terms fuel a b tds) as (t & lg & Ht & HtP & HtQ & HtG & HtE);
    try (subst fuel; lia); [tauto|].
  destruct (bs_reference_whole rt terms fuel a (mid a b) (Z.quot tds 2))
    as (th & lh & Hh & _ & _ & HhG & _); try (subst fuel; lia).
  { destruct Hc as [Hg|([Ht2|Hw2] & _)]; [left; assumption| |right; right; lia].
    right; left. apply (budget_halves tds Ht2). }
  specialize (HlG ltac:(lia)). specialize (HhG ltac:(lia)). rewrite Hw in HrG, HtG, HtE.
  exists fuel, tl, tr, t, th, ll, lr, lg, lh.
  split; [exact Hl|]. split; [exact Hr|]. split; [exact Ht|]. split; [exact Hh|].
  rewrite (range_ref_split a m b) in HtP, HtQ, HtG by lia.
  unfold combine_rule in *. cbn [tP tQ tG] in *.
  rewrite HtP, HtQ, HlP, HlQ, HlG, HrP, HrQ.
  split; [reflexivity|]. split; [reflexivity|]. split.
  - intros Hlt. rewrite (triple_eta t), HtP, HtQ, (HtG Hlt), (HrG Hlt). reflexivity.
  - intros He. rewrite HhG. apply HtE; lia.
Qed.

Lemma C1_combination_any_split_witness :
  exists fuel tl tr t th ll lr lg lh,
    bs full_teams 9 fuel 2 3 1 = Some (tl, ll)
    /\ bs full_teams 9 fuel 3 9 2 = Some (tr, lr)
    /\ bs full_teams 9 fuel 2 9 5 = Some (t, lg)
    /\ bs full_teams 9 fuel 2 (mid 2 9) (Z.quot 5 2) = Some (th, lh)
    /\ tP t = tP (combine_rule tl tr)
    /\ tQ t = tQ (combine_rule tl tr)
    /\ (9 < 9 -> t = combine_rule tl tr)
    /\ (9 = 9 -> tG t = tG th).
Proof.
  apply (C1_combination_any_split full_teams 9 2 3 9 5 1 2);
    try (vm_compute; discriminate || reflexivity).
  left. intros a b. vm_compute. split; discriminate.
Defined.

(** With complete teams the budget has no influence on the root pair. *)
Lemma budget_irrelevant_complete_teams rt terms :
  grants_all rt -> 1 <= terms -> terms <= LONG_MAX ->
  exists fuel P Q, forall threads,
    exists lg, evaluate_terms rt fuel terms threads = Some (P, Q, lg).
Proof.
  intros Hg H1 Hmax. change LONG_MAX with 2147483647 in Hmax.
  assert (Hw : wrap terms = terms)
    by (apply wrap_small; change ULONG_MAX with 4294967295; lia).
  exists (Z.to_nat terms), (tP (range_ref 0 (Z.to_nat (terms - 0)))),
         (tQ (range_ref 0 (Z.to_nat (terms - 0)))).
  intros threads.
  destruct (bs_reference rt terms (Z.to_nat terms) 0 terms threads)
    as (t & lg & Hrun & HP & HQ & _); try lia; [left; exact Hg|].
  exists lg. unfold evaluate_terms. destruct (Z.leb_spec terms 0); [lia|].
  rewrite Hw, Hrun, HP, HQ. reflexivity.
Qed.

(** ** Teams smaller than requested *)


Lemma term_p_pos b : 0 < b -> 0 < term_p b.
Proof.
  intros Hb. unfold term_p.
  change (C / 24 * (C / 24)) with 711822400. change (C * 24) with 15367680.
  assert (0 < b * b) by nia. assert (0 < b * b * b) by nia. nia.
Qed.

Lemma range_ref_P_pos a n : 0 <= a -> 0 < tP (range_ref a n).
Proof.
  intros Ha. induction n as [|n IH]; cbn [range_ref combine_rule tP].
  - lia.
  - apply Z.mul_pos_pos; [exact IH|]. apply term_p_pos. lia.
Qed.

(** A call whose split region gets a single thread never evaluates its
    right half: the scratch values stay 0 and so does the product [P]. *)
Lemma starved_call rt keep fuel a b tds :
  0 <= a -> a < b -> b <= ULONG_MAX -> 1000 <= b - a -> 2 <= tds ->
  rt a b SplitRegion <= 1 -> b - a <= Z.of_nat fuel ->
  exists t lg, bs_gen rt keep fuel a b tds = Some (t, lg)
               /\ tP t = 0 /\ (tds < 3 -> tQ t = 0).
Proof.
  intros Ha Hab Hb Hw Ht Hrt Hf.
  destruct fuel as [|fuel]; [lia|]. cbn [bs_gen].
  pose proof (usub_small a b ltac:(lia) Hb) as Hu.
  rewrite bs_body_node by lia.
  pose proof (mid_between a b Ha Hb ltac:(lia)) as Hm.
  destruct (bs_gen_total rt keep fuel a (mid a b) (idiv tds 2))
    as (tl & ll & -> & _); try lia.
  assert (Hs : split_team rt a b tds = 1).
  { unfold split_team. assert (Hfk : forks a b tds 2 = true) by (apply forks_iff; lia).
    rewrite Hfk. unfold team. lia. }
  rewrite Hs. cbn [Z.eqb Pos.eqb].
  eexists _, _. split; [reflexivity|].
  rewrite finish_merged by apply combine_team_range. cbn [tP tQ tG].
  split; [lia|]. intros Hlt.
  unfold combine_team. rewrite forks_budget by lia. cbn. lia.
Qed.

Lemma starved_root rt terms threads :
  1000 <= terms -> terms <= LONG_MAX -> 2 <= threads ->
  rt 0 terms SplitRegion <= 1 ->
  exists Q lg,
    evaluate_terms rt (Z.to_nat terms) terms threads = Some (0, Q, lg)
    /\ (threads < 3 -> Q = 0).
Proof.
  intros H1 Hmax Ht Hrt. change LONG_MAX with 2147483647 in Hmax.
  assert (Hw : wrap terms = terms)
    by (apply wrap_small; change ULONG_MAX with 4294967295; lia).
  destruct (starved_call rt (fun b => b <? wrap terms) (Z.to_nat terms) 0 terms threads)
    as (t & lg & Hrun & HP & HQ); try (change ULONG_MAX with 4294967295; lia).
  exists (tQ t), lg. unfold evaluate_terms.
  destruct (Z.leb_spec terms 0); [lia|].
  rewrite Hw. unfold bs. rewrite Hrun, HP. split; [reflexivity|exact HQ].
Qed.

Lemma serial_root_nonzero rt terms threads :
  1 <= terms -> terms <= LONG_MAX -> threads < 2 ->
  exists P Q lg,
    evaluate_terms rt (Z.to_nat terms) terms threads = Some (P, Q, lg) /\ P <> 0.
Proof.
  intros H1 Hmax Ht. change LONG_MAX with 2147483647 in Hmax.
  assert (Hw : wrap terms = terms)
    by (apply wrap_small; change ULONG_MAX with 4294967295; lia).
  destruct (bs_reference rt terms (Z.to_nat terms) 0 terms threads (or_intror Ht))
    as (t & lg & Hrun & HP & _); try lia.
  exists (tP t), (tQ t), lg. unfold evaluate_terms.
  destruct (Z.leb_spec terms 0); [lia|].
  rewrite Hw, Hrun. split; [reflexivity|]. rewrite HP.
  pose proof (range_ref_P_pos 0 (Z.to_nat (terms - 0)) ltac:(lia)). lia.
Qed.

(** C3 fails on the code: when the runtime grants a single thread to
    the split region of the root call (1000 terms, budget 2), the right
    half is never evaluated and the root pair is (0, 0), whereas the
    serial run under the same runtime returns a [P] that is not 0. *)
Theorem C3_team_of_one :
  exists fuel lg P0 Q0 lg0,
    evaluate_terms one_thread fuel 1000 2 = Some (0, 0, lg)
    /\ evaluate_terms one_thread fuel 1000 0 = Some (P0, Q0, lg0)
    /\ P0 <> 0.
Proof.
  destruct (starved_root one_thread 1000 2) as (Q & lg & Hrun & HQ);
    try (unfold one_thread; change LONG_MAX with 2147483647; lia).
  destruct (serial_root_nonzero one_thread 1000 0) as (P0 & Q0 & lg0 & Hrun0 & HP0);
    try (change LONG_MAX with 2147483647; lia).
  rewrite (HQ ltac:(lia)) in Hrun.
  exists (Z.to_nat 1000), lg, P0, Q0, lg0. repeat split; assumption.
Qed.

Lemma starved_left_half rt terms threads :
  2000 <= terms -> terms <= LONG_MAX -> 4 <= threads ->
  2 <= rt 0 terms SplitRegion ->
  rt 0 (mid 0 terms) SplitRegion <= 1 ->
  exists Q lg, evaluate_terms rt (Z.to_nat terms) terms threads = Some (0, Q, lg).
Proof.
  intros H1 Hmax Ht Hroot Hleft. change LONG_MAX with 2147483647 in Hmax.
  assert (Hw : wrap terms = terms)
    by (apply wrap_small; change ULONG_MAX with 4294967295; lia).
  assert (Hb : terms <= ULONG_MAX) by (change ULONG_MAX with 4294967295; lia).
  unfold evaluate_terms. destruct (Z.leb_spec terms 0); [lia|].
  rewrite Hw. unfold bs.
  destruct (Z.to_nat terms) as [|fuel] eqn:Ef; [lia|]. cbn [bs_gen].
  pose proof (usub_small 0 terms ltac:(lia) Hb) as Hu.
  rewrite bs_body_node by lia.
  pose proof (mid_exact 0 terms ltac:(lia) Hb) as Hm.
  pose proof (Z.div_mod ((terms - 0) * 653) 1250 ltac:(lia)) as Hd.
  pose proof (Z.mod_pos_bound ((terms - 0) * 653) 1250 ltac:(lia)) as Hr.
  pose proof (budget_halves_nonneg threads ltac:(lia)) as (Hq & _ & _).
  pose proof (Z.div_mod threads 2 ltac:(lia)) as Hd2.
  pose proof (Z.mod_pos_bound threads 2 ltac:(lia)) as Hr2.
  destruct (starved_call rt (fun b => b <? wrap terms) fuel 0 (mid 0 terms) (idiv threads 2))
    as (tl & ll & -> & HP & _); try lia.
  assert (Hs : split_team rt 0 terms threads = 2).
  { unfold split_team. destruct (forks 0 terms threads 2); [apply team_full; lia|reflexivity]. }
  rewrite Hs. cbn [Z.eqb Pos.eqb].
  destruct (bs_gen_total rt (fun b => b <? wrap terms) fuel (mid 0 terms) terms
                         (threads - idiv threads 2))
    as (tr & lr & -> & _); try lia.
  rewrite finish_merged by apply combine_team_range. cbn [tP tQ tG].
  rewrite HP. eexists _, _. reflexivity.
Qed.

(** The same defect under the default of libgomp: with 2500 terms and a
    budget of 4 the root call gets its team, its left half opens a
    region of its own, gets one thread and returns [P = 0]. *)
Lemma nested_regions_lose_a_half :
  exists fuel Q lg,
    evaluate_terms (outermost_only 2500) fuel 2500 4 = Some (0, Q, lg).
Proof.
  assert (Hm : mid 0 2500 = 1306) by (vm_compute; reflexivity).
  destruct (starved_left_half (outermost_only 2500) 2500 4) as (Q & lg & Hrun);
    try (change LONG_MAX with 2147483647; lia).
  - vm_compute. discriminate.
  - rewrite Hm. vm_compute. discriminate.
  - exists (Z.to_nat 2500), Q, lg. exact Hrun.
Qed.

(** ** The split step and the finalisation *)


(** The log of a call on a range of width above 2. *)
Lemma bs_node_log rt terms a b tds :
  0 <= a -> b <= ULONG_MAX -> 2 < b - a ->
  exists fuel t ll lr,
    bs rt terms fuel a b tds
    = Some (t,
            Call a b tds
            :: (if forks a b tds 2
                then [Parallel 2 (team rt a b SplitRegion 2)] else [])
            ++ (Call a (mid a b) (Z.quot tds 2) :: ll)
            ++ (if forks a b tds 2 && (team rt a b SplitRegion 2 =? 1)
                then []
                else Call (mid a b) b (tds - Z.quot tds 2) :: lr)
            ++ (if forks a b tds 3
                then [Parallel 3 (team rt a b CombineRegion 3)] else [])).
Proof.
  intros Ha Hb Hw.
  pose proof (usub_small a b ltac:(lia) Hb) as Hu.
  pose proof (mid_between a b Ha Hb Hw) as Hm.
  set (fuel := Z.to_nat (b - a)).
  destruct (bs_gen_total rt (fun b => b <? wrap terms) fuel a (mid a b) (idiv tds 2))
    as (tl & ll & Hl & _); try (subst fuel; lia).
  destruct (bs_gen_total rt (fun b => b <? wrap terms) fuel (mid a b) b (tds - idiv tds 2))
    as (tr & lr & Hr & _); try (subst fuel; lia).
  exists (S fuel). unfold bs. cbn [bs_gen].
  rewrite bs_body_node by lia. rewrite Hl.
  unfold split_team, split_marker, combine_marker, idiv in *.
  destruct (forks a b tds 2); cbn [andb].
  - destruct (team rt a b SplitRegion 2 =? 1).
    + eexists _, ll, lr. reflexivity.
    + rewrite Hr. eexists _, ll, lr. reflexivity.
  - cbn [Z.eqb Pos.eqb]. rewrite Hr. eexists _, ll, lr. reflexivity.
Qed.

(** C6, as stated, fails in two places: a range of exactly 1000 terms
    is not above the threshold and still opens the parallel region (the
    test is [b-a < 1000]), and for a negative odd budget the left child
    gets the quotient rounded towards zero, not the floor. *)
Lemma C6_counterexample :
  (exists fuel t lg,
     bs full_teams 1000 fuel 0 1000 2
     = Some (t, Call 0 1000 2 :: Parallel 2 2 :: lg)
     /\ ~ 1000 < 1000 - 0)
  /\ option_map snd (bs full_teams 3 3 0 3 (-3))
     = Some [Call 0 3 (-3); Call 0 1 (-1); Call 1 3 (-2)]
  /\ -1 <> (-3) / 2.
Proof.
  split.
  - destruct (bs_node_log full_teams 1000 0 1000 2) as (fuel & t & ll & lr & Hrun);
      try (change ULONG_MAX with 4294967295; lia).
    change (forks 0 1000 2 2) with true in Hrun.
    change (team full_teams 0 1000 SplitRegion 2) with 2 in Hrun.
    cbv iota in Hrun. cbn [app] in Hrun.
    eexists fuel, t, _. split; [exact Hrun|lia].
  - split; [vm_compute; reflexivity|]. vm_compute. discriminate.
Qed.

(** C6 (amended): at every split of a range of width above 2 with
    budget [n], the left child is called with [n/2] rounded towards
    zero (the floor for [n >= 0]) and the right child with [n] minus
    that; the two children are put in a parallel region exactly when
    the width is at least 1000 and the budget at least 2, and the three
    products of the combine step exactly when the width is at least 1000
    and the budget at least 3; outside a region the left child runs
    before the right one. *)
Theorem C6_split_step rt terms a b tds :
  0 <= a -> b <= ULONG_MAX -> 2 < b - a ->
  (0 <= tds -> Z.quot tds 2 = tds / 2)
  /\ (forks a b tds 2 = true <-> 1000 <= b - a /\ 2 <= tds)
  /\ (forks a b tds 3 = true <-> 1000 <= b - a /\ 3 <= tds)
  /\ exists fuel t ll lr,
       bs rt terms fuel a b tds
       = Some (t,
               Call a b tds
               :: (if forks a b tds 2
                   then [Parallel 2 (team rt a b SplitRegion 2)] else [])
               ++ (Call a (mid a b) (Z.quot tds 2) :: ll)
               ++ (if forks a b tds 2 && (team rt a b SplitRegion 2 =? 1)
                   then []
                   else Call (mid a b) b (tds - Z.quot tds 2) :: lr)
               ++ (if forks a b tds 3
                   then [Parallel 3 (team rt a b CombineRegion 3)] else [])).
Proof.
  intros Ha Hb Hw.
  pose proof (usub_small a b ltac:(lia) Hb) as Hu.
  split; [intros Ht; apply Z.quot_div_nonneg; lia|].
  split; [rewrite forks_iff, Hu; reflexivity|].
  split; [rewrite forks_iff, Hu; reflexivity|].
  apply bs_node_log; assumption.
Qed.

Lemma C6_split_step_witness :
  (0 <= 0 /\ 3000 <= ULONG_MAX /\ 2 < 3000 - 0)
  /\ (forks 0 3000 7 2 = true <-> 1000 <= 3000 - 0 /\ 2 <= 7).
Proof.
  split; [vm_compute; repeat split; (discriminate || reflexivity)|].
  destruct (C6_split_step full_teams 3000 0 3000 7) as (_ & H & _);
    [vm_compute; (discriminate || reflexivity) ..|exact H].
Defined.

Lemma precision_bits_bounds d :
  0 <= d <= LONG_MAX ->
  332192809488736234787 * d + 15 * 10 ^ 20 - 10 ^ 15 < 10 ^ 20 * precision_bits d
  /\ 10 ^ 20 * precision_bits d <= 332192809488736234787 * d + 16 * 10 ^ 20 + 10 ^ 15.
Proof.
  intros [Hd0 Hd]. change LONG_MAX with 2147483647 in Hd.
  unfold precision_bits.
  rewrite !of_int_small by (change (2 ^ 53) with 9007199254740992; lia).
  unfold dmul, BITS_PER_DIGIT. cbn [mant expo].
  set (M := 7480317065143153).
  assert (HdM : 0 <= d * M) by (subst M; lia).
  destruct (rne53_spec (d * M) (0 + -51) HdM) as (s1 & Hs1 & He1 & Hm1 & Hhi1 & Hlo1 & Hr1).
  set (x := rne53 (d * M) (0 + -51)) in *.
  assert (Hs1' : s1 <= 31).
  { destruct (Z.eq_dec s1 0); [lia|]. specialize (Hlo1 ltac:(lia)).
    assert (H : 2 ^ (52 + s1) < 2 ^ 84)
      by (subst M; change (2 ^ 84) with 19342813113834066795298816; lia).
    apply pow2_le_inv in H; lia. }
  unfold dadd. cbn [mant expo]. rewrite He1.
  replace (Z.min (0 + -51 + s1) 0) with (s1 - 51) by lia.
  replace (0 + -51 + s1 - (s1 - 51)) with 0 by lia.
  replace (0 - (s1 - 51)) with (51 - s1) by lia.
  rewrite Z.pow_0_r, Z.mul_1_r.
  set (X := mant x) in *. set (P1 := 2 ^ s1) in *. set (Dm := 2 ^ (51 - s1)).
  assert (HP1 : 0 < P1) by (apply Z.pow_pos_nonneg; lia).
  assert (HP1' : P1 <= 2 ^ 31) by (apply Z.pow_le_mono_r; lia).
  assert (HDm : 0 < Dm) by (apply Z.pow_pos_nonneg; lia).
  assert (HPD : P1 * Dm = 2 ^ 51).
  { unfold P1, Dm. rewrite <- Z.pow_add_r by lia. f_equal. lia. }
  assert (Hn2 : 0 <= X + 16 * Dm) by lia.
  destruct (rne53_spec (X + 16 * Dm) (s1 - 51) Hn2)
    as (s2 & Hs2 & He2 & Hm2 & Hhi2 & Hlo2 & Hr2).
  set (Y := mant (rne53 (X + 16 * Dm) (s1 - 51))) in *.
  assert (Hsum : s1 + s2 <= 32).
  { destruct (Z.eq_dec s2 0); [lia|]. specialize (Hlo2 ltac:(lia)).
    assert (Hlt : 2 ^ (52 + s2 + s1) < 2 ^ 85).
    { rewrite Z.pow_add_r by lia. fold P1.
      apply Z.le_lt_trans with ((X + 16 * Dm) * P1).
      - apply Z.mul_le_mono_nonneg_r; lia.
      - replace ((X + 16 * Dm) * P1) with (X * P1 + 16 * (P1 * Dm)) by ring.
        rewrite HPD. change (2 ^ 51) with 2251799813685248.
        change (2 ^ 85) with 38685626227668133590597632.
        change (2 ^ 31) with 2147483648 in HP1'. subst M. lia. }
    apply pow2_le_inv in Hlt; lia. }
  unfold trunc. rewrite He2.
  destruct (Z.leb_spec 0 (s1 - 51 + s2)) as [Hbad|_]; [lia|].
  replace (- (s1 - 51 + s2)) with (51 - s1 - s2) by lia. fold Y.
  set (Dv := 2 ^ (51 - s1 - s2)). set (P2 := 2 ^ s2) in *.
  assert (HP2 : 0 < P2) by (apply Z.pow_pos_nonneg; lia).
  assert (HDv : 0 < Dv) by (apply Z.pow_pos_nonneg; lia).
  assert (HP12 : P2 * P1 <= 2 ^ 32).
  { unfold P1, P2. rewrite <- Z.pow_add_r by lia. apply Z.pow_le_mono_r; lia. }
  assert (HDP : Dv * (P2 * P1) = 2 ^ 51).
  { unfold Dv, P1, P2. rewrite <- !Z.pow_add_r by lia. f_equal. lia. }
  pose proof (Z.div_mod Y Dv ltac:(lia)) as HYd.
  pose proof (Z.mod_pos_bound Y Dv HDv) as HYr.
  set (p := Y / Dv) in *.
  set (U := Y * (P2 * P1)).
  assert (HU : p * 2 ^ 51 <= U < (p + 1) * 2 ^ 51).
  { rewrite <- HDP. unfold U. split.
    - replace (p * (Dv * (P2 * P1))) with ((Dv * p) * (P2 * P1)) by ring.
      apply Z.mul_le_mono_nonneg_r; lia.
    - replace ((p + 1) * (Dv * (P2 * P1))) with ((Dv * p + Dv) * (P2 * P1)) by ring.
      apply Z.mul_lt_mono_pos_r; lia. }
  set (E2 := Y * P2 - (X + 16 * Dm)) in *.
  assert (HUeq : U = X * P1 + 16 * 2 ^ 51 + E2 * P1).
  { rewrite <- HPD. unfold U, E2. ring. }
  assert (HE : - (2 ^ 32) <= 2 * (E2 * P1) <= 2 ^ 32).
  { split.
    - apply Z.le_trans with (- (P2 * P1)); [lia|].
      replace (2 * (E2 * P1)) with ((2 * E2) * P1) by ring.
      replace (- (P2 * P1)) with ((- P2) * P1) by ring.
      apply Z.mul_le_mono_nonneg_r; lia.
    - apply Z.le_trans with (P2 * P1); [|lia].
      replace (2 * (E2 * P1)) with ((2 * E2) * P1) by ring.
      apply Z.mul_le_mono_nonneg_r; lia. }
  clearbody U E2 p. subst M.
  change (2 ^ 51) with 2251799813685248 in *.
  change (2 ^ 32) with 4294967296 in *.
  change (2 ^ 31) with 2147483648 in *.
  change (10 ^ 20) with 100000000000000000000.
  change (10 ^ 15) with 1000000000000000. lia.
Qed.

Lemma precision_fits d :
  0 <= d <= 646456988 -> 0 <= precision_bits d <= LONG_MAX.
Proof.
  intros Hd. change LONG_MAX with 2147483647.
  destruct (precision_bits_bounds d) as [Hlo Hhi];
    [change LONG_MAX with 2147483647; lia|].
  change (10 ^ 20) with 100000000000000000000 in *.
  change (10 ^ 15) with 1000000000000000 in *. lia.
Qed.

Lemma precision_overflows d :
  646456989 <= d <= LONG_MAX -> LONG_MAX < precision_bits d.
Proof.
  intros Hd. destruct (precision_bits_bounds d) as [Hlo Hhi]; [lia|].
  change LONG_MAX with 2147483647 in *.
  change (10 ^ 20) with 100000000000000000000 in *.
  change (10 ^ 15) with 1000000000000000 in *. lia.
Qed.

Lemma to_long_fits v :
  - LONG_MAX - 1 <= v <= LONG_MAX -> to_long v = Some v.
Proof.
  intros Hv. unfold to_long.
  destruct (Z.leb_spec (- LONG_MAX - 1) v); [|lia].
  destruct (Z.leb_spec v LONG_MAX); [reflexivity|lia].
Qed.

Lemma to_long_above v : LONG_MAX < v -> to_long v = None.
Proof.
  intros Hv. unfold to_long.
  destruct (Z.leb_spec v LONG_MAX); [lia|]. rewrite andb_false_r. reflexivity.
Qed.

Section FinalizationProof.

Variable mpf : Type.
Variable zero : mpf.
Variable of_z : Z -> Z -> mpf.
Variables quot prod : Z -> mpf -> mpf -> mpf.
Variable root : Z -> Z -> mpf.

Lemma div_and_sqrt_complete rt threads st :
  threads < 2 \/ 2 <= rt 0 0 DivSqrtRegion ->
  div_and_sqrt mpf zero quot root rt threads st
  = bind (mpf_div mpf quot Qi Pi Qi st)
         (fun st => mpf_sqrt_ui mpf root Ci C (mpf_init mpf zero Ci st)).
Proof.
  intros Hteam. unfold div_and_sqrt.
  destruct (Z.ltb_spec threads 2) as [Hlt|Hge]; [reflexivity|].
  destruct Hteam as [Hbad|Hfull]; [lia|].
  rewrite team_full by lia. rewrite run_team_2. reflexivity.
Qed.

Lemma convert_and_combine_run rt threads p P Q :
  threads < 2 \/ 2 <= rt 0 0 DivSqrtRegion ->
  Q + A * P <> 0 ->
  exists st,
    convert_and_combine mpf zero of_z quot prod root rt threads
      (mkM mpf p P Q (fun _ => None) (fun _ => true)) = Some st
    /\ default_prec mpf st = p
    /\ pstack mpf st = P * (C / D) /\ qstack mpf st = Q + A * P
    /\ fv mpf st Qi
       = Some (mkFV mpf p (quot p (of_z p (P * (C / D))) (of_z p (Q + A * P))))
    /\ fv mpf st Ci = Some (mkFV mpf p (root p C))
    /\ fv mpf st Pi
       = Some (mkFV mpf p (prod p (quot p (of_z p (P * (C / D))) (of_z p (Q + A * P)))
                                (root p C))).
Proof.
  intros Hteam Hnz. unfold convert_and_combine.
  cbn -[Z.mul Z.add Z.div Z.eqb div_and_sqrt].
  rewrite div_and_sqrt_complete by assumption.
  cbn -[Z.mul Z.add Z.div Z.eqb].
  replace (Q + P * A) with (Q + A * P) by ring.
  destruct (Z.eqb_spec (Q + A * P) 0) as [Hz|_]; [contradiction|].
  cbn -[Z.mul Z.add Z.div Z.eqb].
  eexists. split; [reflexivity|]. cbn -[Z.mul Z.add Z.div Z.eqb].
  replace (Q + P * A) with (Q + A * P) by ring.
  split; [reflexivity|]. split; [reflexivity|]. split; [reflexivity|].
  split; [reflexivity|]. split; reflexivity.
Qed.

(** A zero divisor stops the run at [mpf_div], however the last region
    is run. *)
Lemma convert_and_combine_zero_divisor rt threads p P Q :
  Q + A * P = 0 ->
  convert_and_combine mpf zero of_z quot prod root rt threads
    (mkM mpf p P Q (fun _ => None) (fun _ => true)) = None.
Proof.
  intros Hz. unfold convert_and_combine.
  cbn -[Z.mul Z.add Z.div Z.eqb div_and_sqrt].
  replace (Q + P * A) with 0 by lia.
  unfold div_and_sqrt. destruct (threads <? 2); [reflexivity|].
  pose proof (team_range rt 0 0 DivSqrtRegion 2 ltac:(lia)) as Hj.
  assert (Hcase : team rt 0 0 DivSqrtRegion 2 = 1 \/ team rt 0 0 DivSqrtRegion 2 = 2) by lia.
  destruct Hcase as [-> | ->]; [rewrite run_team_1|rewrite run_team_2]; reflexivity.
Qed.

Lemma finalize_run rt threads d P Q :
  0 <= d <= 646456988 ->
  threads < 2 \/ 2 <= rt 0 0 DivSqrtRegion ->
  Q + A * P <> 0 ->
  exists st,
    finalize mpf zero of_z quot prod root rt threads d P Q = Some st
    /\ default_prec mpf st = precision_bits d
    /\ pstack mpf st = P * (C / D) /\ qstack mpf st = Q + A * P
    /\ fv mpf st Qi
       = Some (mkFV mpf (precision_bits d)
                 (quot (precision_bits d)
                       (of_z (precision_bits d) (P * (C / D)))
                       (of_z (precision_bits d) (Q + A * P))))
    /\ fv mpf st Ci = Some (mkFV mpf (precision_bits d) (root (precision_bits d) C))
    /\ fv mpf st Pi
       = Some (mkFV mpf (precision_bits d)
                 (prod (precision_bits d)
                       (quot (precision_bits d)
                             (of_z (precision_bits d) (P * (C / D)))
                             (of_z (precision_bits d) (Q + A * P)))
                       (root (precision_bits d) C))).
Proof.
  intros Hd Hteam Hnz. unfold finalize.
  rewrite to_long_fits by (pose proof (precision_fits d Hd); lia).
  exact (convert_and_combine_run rt threads (precision_bits d) P Q Hteam Hnz).
Qed.

End FinalizationProof.

(** C4, as stated, fails in serial runs.  For one digit the claim gives
    a precision of 19.32 bits, the code selects 19: the cast discards
    the fraction.  For 646456989 digits the value does not fit a [long]
    and the cast is undefined.  For the pair (0, 0), the one that the
    run of C3 hands over, the divisor [Q + A*P] is 0 and [mpf_div] ends
    the program. *)
Lemma C4_counterexample :
  (exists st, finalize_sym one_thread 1 1 1 0 = Some st
              /\ default_prec fexpr st = 19
              /\ 10 ^ 20 * default_prec fexpr st
                 <> 332192809488736234787 * 1 + 16 * 10 ^ 20)
  /\ finalize_sym one_thread 1 646456989 1 0 = None
  /\ finalize_sym one_thread 1 15 0 0 = None.
Proof.
  split; [|split].
  - eexists. split; [vm_compute; reflexivity|]. split; [reflexivity|]. discriminate.
  - vm_compute. reflexivity.
  - vm_compute. reflexivity.
Qed.

(** C4 (amended): for a digit count [0 < d <= 646456988] and a pair with
    [Q + A*P <> 0], the last region being run serially or by its
    complete team, the finalisation sets the default precision once, to
    [(long)(d*BITS_PER_DIGIT+16)], before any floating value exists; that
    value fits a [long] and lies between [d * 3.32192809488736234787 + 15]
    and [d * 3.32192809488736234787 + 16], up to a hundred-thousandth of
    a bit; it forms [Q' = Q + A*P] and [P' = P * (C/D)] in integers,
    [C/D] being the exact quotient 53360; converts both at that
    precision; and returns [(P'/Q') * sqrt(C)], every floating variable
    carrying the selected precision. *)
Theorem C4_finalize_pipeline (mpf : Type) (zero : mpf) (of_z : Z -> Z -> mpf)
    (quot prod : Z -> mpf -> mpf -> mpf) (root : Z -> Z -> mpf)
    rt threads d P Q :
  0 < d -> d <= 646456988 -> Q + A * P <> 0 ->
  threads < 2 \/ 2 <= rt 0 0 DivSqrtRegion ->
  (332192809488736234787 * d + 15 * 10 ^ 20 - 10 ^ 15 < 10 ^ 20 * precision_bits d
   /\ 10 ^ 20 * precision_bits d <= 332192809488736234787 * d + 16 * 10 ^ 20 + 10 ^ 15
   /\ to_long (precision_bits d) = Some (precision_bits d))
  /\ C / D * D = C
  /\ exists st,
       finalize mpf zero of_z quot prod root rt threads d P Q = Some st
       /\ default_prec mpf st = precision_bits d
       /\ pstack mpf st = P * (C / D) /\ qstack mpf st = Q + A * P
       /\ fv mpf st Qi
          = Some (mkFV mpf (precision_bits d)
                    (quot (precision_bits d)
                          (of_z (precision_bits d) (P * (C / D)))
                          (of_z (precision_bits d) (Q + A * P))))
       /\ fv mpf st Ci = Some (mkFV mpf (precision_bits d) (root (precision_bits d) C))
       /\ fv mpf st Pi
          = Some (mkFV mpf (precision_bits d)
                    (prod (precision_bits d)
                          (quot (precision_bits d)
                                (of_z (precision_bits d) (P * (C / D)))
                                (of_z (precision_bits d) (Q + A * P)))
                          (root (precision_bits d) C))).
Proof.
  intros Hd Hmax Hnz Hteam. split; [|split; [reflexivity|]].
  - destruct (precision_bits_bounds d) as [Hlo Hhi];
      [change LONG_MAX with 2147483647; lia|].
    split; [exact Hlo|]. split; [exact Hhi|].
    apply to_long_fits. pose proof (precision_fits d ltac:(lia)). lia.
  - apply finalize_run; [lia|exact Hteam|exact Hnz].
Qed.

Lemma C4_finalize_pipeline_witness :
  (0 < 15 /\ 15 <= 646456988 /\ -2793657715 + A * 10939058860032000 <> 0
   /\ (1 < 2 \/ 2 <= one_thread 0 0 DivSqrtRegion))
  /\ exists st,
       finalize_sym one_thread 1 15 10939058860032000 (-2793657715) = Some st
       /\ default_prec fexpr st = 65.
Proof.
  split; [vm_compute; repeat split; (discriminate || (left; reflexivity))|].
  destruct (C4_finalize_pipeline fexpr FZero FOfZ FQuot FProd FRoot
              one_thread 1 15 10939058860032000 (-2793657715))
    as (_ & _ & st & Hrun & Hprec & _).
  - reflexivity.
  - discriminate.
  - vm_compute. discriminate.
  - left. reflexivity.
  - exists st. split; [exact Hrun|exact Hprec].
Defined.

(** ** The term count and the depth computed by [main] *)


Example ddiv_vs_ieee :
  forallb (fun d => SFeqb (to_spec (ddiv (of_int d) DIGITS_PER_ITER))
                          (SFdiv 53 1024 (to_spec (of_int d)) (to_spec DIGITS_PER_ITER)))
          [1; 3; 14; 15; 100; 1000; 14181; 14182; 123456789; 2147483647] = true
  /\ SFeqb (to_spec (ddiv (of_int 2) (of_int 3)))
           (SFdiv 53 1024 (to_spec (of_int 2)) (to_spec (of_int 3))) = true.
Proof. vm_compute. split; reflexivity. Qed.

Example DIGITS_PER_ITER_nearest :
  2 * Z.abs (mant DIGITS_PER_ITER * 10 ^ 19 - 141816474627254776555 * 2 ^ 49)
  <= 10 ^ 19.
Proof. vm_compute. discriminate. Qed.

Example terms_of_digits_examples :
  map terms_of_digits [0; 14; 15; 100; 1000; 14182; 2147483647]
  = [0; 0; 1; 7; 70; 1000; 151426951].
Proof. vm_compute. reflexivity. Qed.

Lemma terms_of_digits_zero : terms_of_digits 0 = 0.
Proof. vm_compute. reflexivity. Qed.

Lemma terms_of_digits_bounds d :
  0 <= d <= LONG_MAX ->
  0 <= terms_of_digits d
  /\ 141816474627254 * terms_of_digits d <= 10 ^ 13 * d
  /\ 10 ^ 13 * d < 141816474627255 * (terms_of_digits d + 1).
Proof.
  intros [Hd0 Hd]. change LONG_MAX with 2147483647 in Hd.
  destruct (Z.eq_dec d 0) as [->|Hnz].
  { rewrite terms_of_digits_zero. change (10 ^ 13) with 10000000000000. lia. }
  unfold terms_of_digits.
  rewrite of_int_small by (change (2 ^ 53) with 9007199254740992; lia).
  unfold ddiv, DIGITS_PER_ITER. cbn [mant expo].
  set (M := 7983557778578775).
  change (bitlen M) with 53.
  pose proof (bitlen_bounds d ltac:(lia)) as [HLlo HLhi].
  set (L := bitlen d) in *.
  assert (HL1 : 1 <= L).
  { unfold L, bitlen. destruct (Z.eqb_spec d 0); [lia|].
    pose proof (Z.log2_nonneg d). lia. }
  assert (HL : L <= 31).
  { assert (Hlt : 2 ^ (L - 1) < 2 ^ 31) by (change (2 ^ 31) with 2147483648; lia).
    apply pow2_le_inv in Hlt; lia. }
  replace (Z.max 0 (56 + 53 - L)) with (109 - L) by lia.
  replace (0 - -49 - (109 - L) - 1) with (L - 61) by lia.
  set (E := 2 ^ (61 - L)).
  assert (HE : 0 < E) by (apply Z.pow_pos_nonneg; lia).
  assert (HN : d * 2 ^ (109 - L) = d * E * 2 ^ 48).
  { unfold E. rewrite <- Z.mul_assoc, <- Z.pow_add_r by lia. do 2 f_equal. lia. }
  rewrite HN.
  assert (HX : 2 ^ 60 <= d * E < 2 ^ 61).
  { unfold E. split.
    - replace 60 with ((L - 1) + (61 - L)) by lia. rewrite Z.pow_add_r by lia.
      apply Z.mul_le_mono_nonneg_r; lia.
    - replace 61 with (L + (61 - L)) at 2 by lia. rewrite Z.pow_add_r by lia.
      apply Z.mul_lt_mono_pos_r; lia. }
  set (X := d * E) in *.
  set (N := X * 2 ^ 48).
  pose proof (Z.div_mod N M ltac:(subst M; lia)) as Hdm.
  pose proof (Z.mod_pos_bound N M ltac:(subst M; lia)) as Hr.
  set (q := N / M) in *. set (r := N mod M) in *.
  set (n := 2 * q + (if r =? 0 then 0 else 1)).
  assert (Hn : (n - 1) * M < 2 * N < (n + 1) * M /\ 0 <= n).
  { unfold n. destruct (Z.eqb_spec r 0); subst M N; change (2 ^ 48) with 281474976710656 in *;
      change (2 ^ 60) with 1152921504606846976 in *; lia. }
  destruct Hn as [Hn Hn0].
  destruct (rne53_spec n (L - 61) Hn0) as (s & Hs & He & Hm & Hhi & Hlo & Hrnd).
  set (V := mant (rne53 n (L - 61))) in *.
  assert (Hn56 : 2 ^ 56 <= n < 2 ^ 58 + 1).
  { subst N M. change (2 ^ 48) with 281474976710656 in *.
    change (2 ^ 60) with 1152921504606846976 in *.
    change (2 ^ 61) with 2305843009213693952 in *.
    change (2 ^ 56) with 72057594037927936.
    change (2 ^ 58) with 288230376151711744. lia. }
  assert (Hs4 : 4 <= s <= 6).
  { split.
    - assert (Hlt : 2 ^ 56 < 2 ^ (53 + s)) by lia. apply pow2_le_inv in Hlt; lia.
    - destruct (Z.le_gt_cases s 6); [assumption|exfalso].
      specialize (Hlo ltac:(lia)).
      assert (2 ^ 59 <= 2 ^ (52 + s)) by (apply Z.pow_le_mono_r; lia).
      change (2 ^ 59) with 576460752303423488 in *.
      change (2 ^ 58) with 288230376151711744 in *. lia. }
  specialize (Hlo ltac:(lia)).
  unfold trunc. rewrite He.
  destruct (Z.leb_spec 0 (L - 61 + s)) as [Hbad|_]; [lia|].
  replace (- (L - 61 + s)) with (61 - L - s) by lia. fold V.
  set (Dv := 2 ^ (61 - L - s)).
  set (P := 2 ^ s) in *.
  assert (HP : 0 < P) by (apply Z.pow_pos_nonneg; lia).
  assert (HDv : 0 < Dv) by (apply Z.pow_pos_nonneg; lia).
  assert (HDP : Dv * P = E).
  { unfold Dv, P, E. rewrite <- Z.pow_add_r by lia. f_equal. lia. }
  pose proof (Z.div_mod V Dv ltac:(lia)) as HVd.
  pose proof (Z.mod_pos_bound V Dv HDv) as HVr.
  set (t := V / Dv) in *.
  assert (Ht0 : 0 <= t) by (apply Z.div_pos; lia).
  (* scale by P: t * E <= W < (t + 1) * E with W = V * P *)
  set (W := V * P) in *.
  assert (HW : t * E <= W < (t + 1) * E).
  { rewrite <- HDP. unfold W. split.
    - replace (t * (Dv * P)) with ((Dv * t) * P) by ring.
      apply Z.mul_le_mono_nonneg_r; lia.
    - replace ((t + 1) * (Dv * P)) with ((Dv * t + Dv) * P) by ring.
      apply Z.mul_lt_mono_pos_r; lia. }
  assert (Hrel : 2 ^ 53 * (W - n) <= n /\ 2 ^ 53 * (n - W) <= n).
  { assert (HPn : 2 ^ 52 * P <= n).
    { unfold P. rewrite <- Z.pow_add_r by lia. exact Hlo. }
    change (2 ^ 53) with (2 * 2 ^ 52). lia. }
  set (T := t * E) in *. set (T' := (t + 1) * E) in *.
  assert (HT' : T' = T + E) by (unfold T, T'; ring).
  assert (HEX : E <= X) by (unfold X; nia).
  split; [exact Ht0|]. split.
  - apply Z.mul_le_mono_pos_r with E; [exact HE|].
    replace (141816474627254 * t * E) with (141816474627254 * T) by (unfold T; ring).
    replace (10 ^ 13 * d * E) with (10 ^ 13 * X) by (unfold X; ring).
    clearbody T T' W n X. subst N M.
    change (2 ^ 48) with 281474976710656 in *.
    change (2 ^ 53) with 9007199254740992 in *.
    change (2 ^ 60) with 1152921504606846976 in *.
    change (10 ^ 13) with 10000000000000. lia.
  - apply Z.mul_lt_mono_pos_r with E; [exact HE|].
    replace (141816474627255 * (t + 1) * E) with (141816474627255 * T') by (unfold T'; ring).
    replace (10 ^ 13 * d * E) with (10 ^ 13 * X) by (unfold X; ring).
    clearbody T T' W n X. subst N M.
    change (2 ^ 48) with 281474976710656 in *.
    change (2 ^ 53) with 9007199254740992 in *.
    change (2 ^ 60) with 1152921504606846976 in *.
    change (10 ^ 13) with 10000000000000. lia.
Qed.

(** The term count that [main] derives from a digit count never makes
    an operand of [bs] wrap around. *)
Lemma terms_of_digits_range d :
  0 <= d <= LONG_MAX ->
  0 <= terms_of_digits d <= 151426951
  /\ terms_of_digits d <= LONG_MAX
  /\ 6 * terms_of_digits d - 1 <= ULONG_MAX.
Proof.
  intros Hd. destruct (terms_of_digits_bounds d Hd) as (H0 & Hup & _).
  change LONG_MAX with 2147483647 in *. change ULONG_MAX with 4294967295.
  change (10 ^ 13) with 10000000000000 in Hup. lia.
Qed.

Lemma shl1_spec depth :
  0 <= depth -> shl1 depth = if depth <? 31 then Some (2 ^ depth) else None.
Proof.
  intros H. unfold shl1. change (ULONG_BITS - 1) with 31.
  destruct (depth <? 31); [|reflexivity]. rewrite Z.shiftl_1_l. reflexivity.
Qed.

Lemma depth_loop_spec terms fuel : forall depth,
  terms <= 2 ^ 30 -> 0 <= depth ->
  31 - depth < Z.of_nat fuel ->
  depth = 0 \/ 2 ^ (depth - 1) < terms ->
  depth_loop fuel depth terms = Some (Z.log2_up terms).
Proof.
  induction fuel as [|fuel IH]; intros depth Ht Hd Hf Hinv;
    (assert (Hd30 : depth <= 30);
     [destruct (Z.le_gt_cases depth 30) as [|Hgt]; [assumption|];
      destruct Hinv as [Hz|Hlt]; [lia|];
      assert (Hlt' : 2 ^ (depth - 1) < 2 ^ 30) by lia;
      apply pow2_le_inv in Hlt'; lia|]); [lia|].
  cbn [depth_loop]. rewrite shl1_spec by assumption.
  destruct (Z.ltb_spec depth 31) as [_|]; [|lia].
  destruct (Z.ltb_spec (2 ^ depth) terms) as [Hlt|Hge].
  - apply IH; try lia. right. replace (depth + 1 - 1) with depth by lia. exact Hlt.
  - f_equal. symmetry. destruct (Z.eq_dec depth 0) as [->|Hnz].
    + apply Z.log2_up_eqn0. change (2 ^ 0) with 1 in Hge. lia.
    + destruct Hinv as [Hz|Hlt]; [contradiction|].
      apply Z.log2_up_unique; [lia|].
      replace (Z.pred depth) with (depth - 1) by lia. lia.
Qed.

Lemma depth_loop_overflow terms fuel : forall depth,
  2 ^ 30 < terms -> 0 <= depth <= 31 ->
  depth_loop fuel depth terms = None.
Proof.
  induction fuel as [|fuel IH]; intros depth Ht Hd; [reflexivity|].
  cbn [depth_loop]. rewrite shl1_spec by lia.
  destruct (Z.ltb_spec depth 31) as [Hlt|]; [|reflexivity].
  assert (Hp : 2 ^ depth <= 2 ^ 30) by (apply Z.pow_le_mono_r; lia).
  destruct (Z.ltb_spec (2 ^ depth) terms); [|lia].
  apply IH; lia.
Qed.

(** ** The series in closed form *)


Lemma range_exact_eq a n :
  0 <= a -> 6 * (a + Z.of_nat n) - 1 <= ULONG_MAX ->
  range_ref a n = range_exact a n.
Proof.
  intros Ha. induction n as [|n IH]; intros Hmax; [reflexivity|].
  cbn [range_ref range_exact]. rewrite IH by lia.
  rewrite leaf_exact by lia. reflexivity.
Qed.

Lemma range_exact_P_step a n :
  tP (range_exact a (S n))
  = tP (range_exact a n) * ((a + Z.of_nat n + 1) ^ 3 * (C ^ 3 / 24)).
Proof. reflexivity. Qed.

Lemma range_exact_G_step a n :
  tG (range_exact a (S n))
  = tG (range_exact a n)
    * ((6 * (a + Z.of_nat n + 1) - 5) * (2 * (a + Z.of_nat n + 1) - 1)
       * (6 * (a + Z.of_nat n + 1) - 1)).
Proof. reflexivity. Qed.

Lemma fact_succ_Z n : Z.of_nat (fact (S n)) = (Z.of_nat n + 1) * Z.of_nat (fact n).
Proof. cbn [fact]. lia. Qed.

(** [P(0,n) = (n!)^3 (C^3/24)^n]. *)
Lemma range_exact_P_factorial n :
  tP (range_exact 0 n) = Z.of_nat (fact n) ^ 3 * (C ^ 3 / 24) ^ Z.of_nat n.
Proof.
  induction n as [|n IH]; [reflexivity|].
  rewrite range_exact_P_step, IH, fact_succ_Z, Nat2Z.inj_succ, Z.pow_succ_r by lia.
  set (K := C ^ 3 / 24). set (F := Z.of_nat (fact n)). set (m := Z.of_nat n).
  replace (0 + m + 1) with (m + 1) by lia.
  change 3 with (Z.succ (Z.succ (Z.succ 0))).
  rewrite !Z.pow_succ_r, !Z.pow_0_r by lia. ring.
Qed.

(** [G(0,n) (3n)! 24^n = (6n)!]. *)
Lemma range_exact_G_factorial n :
  tG (range_exact 0 n) * Z.of_nat (fact (3 * n)) * 24 ^ Z.of_nat n
  = Z.of_nat (fact (6 * n)).
Proof.
  induction n as [|n IH]; [reflexivity|].
  rewrite range_exact_G_step.
  replace (24 ^ Z.of_nat (S n)) with (24 * 24 ^ Z.of_nat n)
    by (rewrite Nat2Z.inj_succ, Z.pow_succ_r; lia).
  replace (6 * S n)%nat with (S (S (S (S (S (S (6 * n)))))))%nat by lia.
  replace (3 * S n)%nat with (S (S (S (3 * n))))%nat by lia.
  rewrite !fact_succ_Z, <- IH.
  rewrite !Nat2Z.inj_succ, !Nat2Z.inj_mul.
  change (Z.of_nat 6) with 6. change (Z.of_nat 3) with 3.
  set (m := Z.of_nat n). set (G := tG (range_exact 0 n)).
  set (F := Z.of_nat (fact (3 * n))). set (W := 24 ^ m).
  unfold Z.succ. ring.
Qed.

Lemma sum_upto_ext f g m :
  (forall k, (k <= m)%nat -> f k = g k) -> sum_upto f m = sum_upto g m.
Proof.
  induction m as [|m IH]; intros H; cbn [sum_upto].
  - apply H. lia.
  - rewrite IH, H by (intros; try apply H; lia). reflexivity.
Qed.

Lemma sum_upto_scale f c m :
  sum_upto (fun k => f k * c) m = sum_upto f m * c.
Proof.
  induction m as [|m IH]; cbn [sum_upto]; [reflexivity|]. rewrite IH. ring.
Qed.

Lemma range_exact_P_last a n :
  tP (range_exact a (S n)) = tP (range_exact a n) * tP (term_exact (a + Z.of_nat n + 1)).
Proof. reflexivity. Qed.

Lemma term_exact_Q b :
  tQ (term_exact b)
  = (if Z.odd b then -1 else 1) * (A + B * b) * tG (term_exact b).
Proof. unfold term_exact. cbn [tQ tG]. destruct (Z.odd b); ring. Qed.

(** [Q(0,n) + A P(0,n)] is the numerator of the first [n+1] terms of the
    series over their common denominator. *)
Lemma range_exact_series n :
  tQ (range_exact 0 n) + A * tP (range_exact 0 n) = chud_sum n.
Proof.
  unfold chud_sum. induction n as [|n IH].
  - cbn. reflexivity.
  - cbn [sum_upto].
    rewrite (sum_upto_ext (chud_term (S n))
               (fun k => chud_term n k * tP (term_exact (Z.of_nat n + 1)))).
    + rewrite sum_upto_scale, <- IH.
      unfold chud_term. rewrite Nat.sub_diag. cbn [range_exact tP].
      change (range_exact 0 (S n))
        with (combine_rule (range_exact 0 n) (term_exact (0 + Z.of_nat n + 1))).
      unfold combine_rule at 1 2. cbn [tP tQ tG].
      rewrite term_exact_Q.
      replace (0 + Z.of_nat n + 1) with (Z.of_nat n + 1) by lia.
      replace (Z.of_nat (S n)) with (Z.of_nat n + 1) by lia.
      rewrite Nat.odd_succ, <- Nat.negb_odd.
      assert (Hodd : Z.odd (Z.of_nat n + 1) = negb (Nat.odd n)).
      { rewrite Z.add_1_r, Z.odd_succ, <- Z.negb_odd.
        f_equal. clear. induction n as [|n IHn]; [reflexivity|].
        rewrite Nat2Z.inj_succ, Z.odd_succ, Nat.odd_succ, <- Z.negb_odd, <- Nat.negb_odd, IHn.
        reflexivity. }
      rewrite Hodd.
      change (range_exact 0 (S n))
        with (combine_rule (range_exact 0 n) (term_exact (0 + Z.of_nat n + 1))).
      unfold combine_rule. cbn [tG].
      replace (0 + Z.of_nat n + 1) with (Z.of_nat n + 1) by lia.
      ring.
    + intros k Hk. unfold chud_term.
      replace (S n - k)%nat with (S (n - k)) by lia.
      rewrite range_exact_P_last.
      replace (Z.of_nat k + Z.of_nat (n - k) + 1) with (Z.of_nat n + 1) by lia.
      ring.
Qed.

(** ** What [main] hands to the evaluator, and what comes back *)


Lemma evaluate_terms_reference rt terms threads :
  grants_all rt \/ threads < 2 -> 1 <= terms -> terms <= ULONG_MAX ->
  exists lg,
    evaluate_terms rt (Z.to_nat terms) terms threads
    = Some (tP (range_ref 0 (Z.to_nat terms)), tQ (range_ref 0 (Z.to_nat terms)), lg).
Proof.
  intros Hc H1 Hmax.
  assert (Hw : wrap terms = terms) by (apply wrap_small; lia).
  destruct (bs_reference rt terms (Z.to_nat terms) 0 terms threads Hc)
    as (t & lg & Hrun & HP & HQ & _); try lia.
  exists lg. unfold evaluate_terms. destruct (Z.leb_spec terms 0); [lia|].
  rewrite Hw, Hrun, HP, HQ. replace (terms - 0) with terms by lia. reflexivity.
Qed.

(** X1: for every digit count [0 <= d <= LONG_MAX] the term count
    [d/DIGITS_PER_ITER], computed in [double] and truncated, lies within
    one of [d / 14.1816474627254...]; it fits a [long], and it is small
    enough for [6*terms-1] to fit an [unsigned long], so that no operand
    of [bs] wraps around in a run started by [main]. *)
Theorem X1_terms_of_digits d :
  0 <= d <= LONG_MAX ->
  0 <= terms_of_digits d <= LONG_MAX
  /\ 141816474627254 * terms_of_digits d <= 10 ^ 13 * d
  /\ 10 ^ 13 * d < 141816474627255 * (terms_of_digits d + 1)
  /\ 6 * terms_of_digits d - 1 <= ULONG_MAX.
Proof.
  intros Hd. destruct (terms_of_digits_bounds d Hd) as (H0 & Hlo & Hhi).
  destruct (terms_of_digits_range d Hd) as (_ & Hl & Hu).
  repeat split; assumption.
Qed.

Lemma X1_terms_of_digits_witness :
  (0 <= 14182 <= LONG_MAX)
  /\ 141816474627254 * terms_of_digits 14182 <= 10 ^ 13 * 14182.
Proof.
  split; [vm_compute; split; discriminate|].
  destruct (X1_terms_of_digits 14182) as (_ & H & _);
    [vm_compute; split; discriminate|exact H].
Defined.

(** X2: the loop [while ((1L<<depth)<terms) depth++;] followed by
    [depth++] leaves [depth = ceil(log2 terms) + 1] (1 for
    [terms <= 1]) whenever [terms <= 2^30]; above that it reaches the
    shift [1L<<31], which is undefined for a 32-bit [long]. *)
Theorem X2_depth_of_terms terms :
  depth_of_terms terms
  = if terms <=? 2 ^ 30 then Some (Z.log2_up terms + 1) else None.
Proof.
  unfold depth_of_terms. destruct (Z.leb_spec terms (2 ^ 30)) as [Hle|Hgt].
  - rewrite (depth_loop_spec terms 32 0) by (try assumption; try lia; left; reflexivity).
    reflexivity.
  - rewrite depth_loop_overflow by (try assumption; lia). reflexivity.
Qed.

(** X3: in a serial run, or one with complete teams, the root pair of
    [n] terms is [P = (n!)^3 (C^3/24)^n] and [Q] such that [Q + A*P] is
    the sum over [k = 0..n] of [(-1)^k (A + B k) G(0,k) P(k,n)]: the
    numerator of the first [n+1] terms of the Chudnovsky series over
    their common denominator [P]. *)
Theorem X3_root_pair_closed_form rt terms threads :
  grants_all rt \/ threads < 2 ->
  1 <= terms -> 6 * terms - 1 <= ULONG_MAX ->
  exists fuel P Q lg,
    evaluate_terms rt fuel terms threads = Some (P, Q, lg)
    /\ P = Z.of_nat (fact (Z.to_nat terms)) ^ 3 * (C ^ 3 / 24) ^ terms
    /\ Q + A * P = chud_sum (Z.to_nat terms).
Proof.
  intros Hc H1 Hmax.
  destruct (evaluate_terms_reference rt terms threads Hc H1 ltac:(lia)) as (lg & Hrun).
  rewrite range_exact_eq in Hrun by lia.
  eexists _, _, _, lg. split; [exact Hrun|]. split.
  - rewrite range_exact_P_factorial, Z2Nat.id by lia. reflexivity.
  - apply range_exact_series.
Qed.

Lemma X3_root_pair_closed_form_witness :
  exists fuel P Q lg,
    evaluate_terms full_teams fuel 5 4 = Some (P, Q, lg)
    /\ P = Z.of_nat (fact (Z.to_nat 5)) ^ 3 * (C ^ 3 / 24) ^ 5
    /\ Q + A * P = chud_sum (Z.to_nat 5).
Proof.
  apply (X3_root_pair_closed_form full_teams 5 4).
  - left. intros a b. cbn. lia.
  - lia.
  - vm_compute. discriminate.
Defined.

(** X4: for a range [[0, b)] that ends before the term count, the [G]
    that [bs] returns is [(6b)! / ((3b)! 24^b)], stated without
    division: [G (3b)! 24^b = (6b)!]. *)
Theorem X4_link_factor_factorials rt terms b tds :
  grants_all rt \/ tds < 2 ->
  1 <= b -> b < terms -> terms <= ULONG_MAX -> 6 * b - 1 <= ULONG_MAX ->
  exists fuel t lg,
    bs rt terms fuel 0 b tds = Some (t, lg)
    /\ tG t * Z.of_nat (fact (3 * Z.to_nat b)) * 24 ^ b
       = Z.of_nat (fact (6 * Z.to_nat b)).
Proof.
  intros Hc H1 Hlt Hmax Hw6.
  assert (Hw : wrap terms = terms) by (apply wrap_small; lia).
  destruct (bs_reference rt terms (Z.to_nat b) 0 b tds Hc)
    as (t & lg & Hrun & _ & _ & HG); try lia.
  exists (Z.to_nat b), t, lg. split; [exact Hrun|].
  rewrite HG by lia. replace (b - 0) with b by lia.
  rewrite range_exact_eq by lia.
  replace (24 ^ b) with (24 ^ Z.of_nat (Z.to_nat b)) by (rewrite Z2Nat.id by lia; reflexivity).
  apply range_exact_G_factorial.
Qed.

Lemma X4_link_factor_factorials_witness :
  exists fuel t lg,
    bs one_thread 9 fuel 0 4 0 = Some (t, lg)
    /\ tG t * Z.of_nat (fact (3 * Z.to_nat 4)) * 24 ^ 4
       = Z.of_nat (fact (6 * Z.to_nat 4)).
Proof.
  apply (X4_link_factor_factorials one_thread 9 4 0);
    try (right; lia); try lia; vm_compute; discriminate.
Defined.

(** ** Regions and budgets in the log *)


Lemma count_regions_app n l1 l2 :
  count_regions n (l1 ++ l2) = count_regions n l1 + count_regions n l2.
Proof. unfold count_regions. rewrite filter_app, length_app. lia. Qed.

Lemma count_regions_call n a b tds lg :
  count_regions n (Call a b tds :: lg) = count_regions n lg.
Proof. reflexivity. Qed.

Lemma count_regions_split_marker rt a b tds :
  count_regions 2 (split_marker rt a b tds) = (if forks a b tds 2 then 1 else 0)
  /\ count_regions 3 (split_marker rt a b tds) = 0.
Proof. unfold split_marker. destruct (forks a b tds 2); split; reflexivity. Qed.

Lemma count_regions_combine_marker rt a b tds :
  count_regions 3 (combine_marker rt a b tds) = (if forks a b tds 3 then 1 else 0)
  /\ count_regions 2 (combine_marker rt a b tds) = 0.
Proof. unfold combine_marker. destruct (forks a b tds 3); split; reflexivity. Qed.

Lemma forks_true_budget a b tds n : forks a b tds n = true -> n <= tds.
Proof. intros H. apply forks_iff in H. lia. Qed.

Lemma budget_split tds :
  2 <= tds -> 1 <= idiv tds 2 /\ idiv tds 2 <= tds - idiv tds 2
              /\ tds - idiv tds 2 <= idiv tds 2 + 1.
Proof.
  intros H. destruct (budget_halves_nonneg tds ltac:(lia)) as (-> & _ & _).
  pose proof (Z.div_mod tds 2 ltac:(lia)). pose proof (Z.mod_pos_bound tds 2 ltac:(lia)).
  lia.
Qed.

Section LogMeasures.

Variable rt : runtime.
Variable keep : Z -> bool.

(** The budget bounds the number of regions a call can open. *)
Lemma region_counts fuel : forall a b tds t lg,
  bs_gen rt keep fuel a b tds = Some (t, lg) ->
  count_regions 2 lg <= Z.max 0 (tds - 1)
  /\ count_regions 3 lg <= Z.max 0 (tds - 2).
Proof.
  induction fuel as [|fuel IH]; intros a b tds t lg; [discriminate|].
  cbn [bs_gen].
  destruct (Z.eq_dec (usub b a) 1) as [H1|H1].
  { rewrite bs_body_leaf by assumption. intros [= <- <-]. cbn. lia. }
  destruct (Z.eq_dec (usub b a) 2) as [H2|H2].
  { rewrite bs_body_pair by assumption. intros [= <- <-]. cbn. lia. }
  rewrite bs_body_node by assumption.
  destruct (bs_gen rt keep fuel a (mid a b) (idiv tds 2)) as [[tl ll]|] eqn:El;
    [|discriminate].
  destruct (IH _ _ _ _ _ El) as [Hl2 Hl3].
  destruct (count_regions_split_marker rt a b tds) as [Hs2 Hs3].
  destruct (count_regions_combine_marker rt a b tds) as [Hc3 Hc2].
  assert (Hright : forall tr lr,
    (if split_team rt a b tds =? 1 then Some (mkT 0 0 0, [])
     else bs_gen rt keep fuel (mid a b) b (tds - idiv tds 2)) = Some (tr, lr) ->
    count_regions 2 lr <= Z.max 0 (tds - idiv tds 2 - 1)
    /\ count_regions 3 lr <= Z.max 0 (tds - idiv tds 2 - 2)).
  { intros tr lr. destruct (split_team rt a b tds =? 1).
    - intros [= <- <-]. cbn. lia.
    - apply IH. }
  destruct (if split_team rt a b tds =? 1 then _ else _) as [[tr lr]|]; [|discriminate].
  destruct (Hright tr lr eq_refl) as [Hr2 Hr3].
  intros [= <- <-].
  rewrite !count_regions_call, !count_regions_app, Hs2, Hs3, Hc2, Hc3.
  destruct (Z.le_gt_cases 2 tds) as [Hge|Hlt].
  - destruct (budget_split tds Hge) as (Hb1 & Hb2 & Hb3).
    assert (Hf3 : forks a b tds 3 = true -> 3 <= tds) by apply forks_true_budget.
    destruct (forks a b tds 2), (forks a b tds 3); try specialize (Hf3 eq_refl); lia.
  - destruct (budget_halves tds Hlt) as [Hb1 Hb2].
    rewrite (forks_budget a b tds 2), (forks_budget a b tds 3) by lia. lia.
Qed.

(** A non-negative budget is never exceeded, nor made negative, in the
    calls below. *)
Lemma budgets_in_log fuel : forall a b tds t lg,
  0 <= tds -> bs_gen rt keep fuel a b tds = Some (t, lg) ->
  Forall (budget_in 0 tds) lg.
Proof.
  induction fuel as [|fuel IH]; intros a b tds t lg Ht; [discriminate|].
  cbn [bs_gen].
  destruct (Z.eq_dec (usub b a) 1) as [H1|H1].
  { rewrite bs_body_leaf by assumption. intros [= <- <-].
    repeat constructor; cbn; lia. }
  destruct (Z.eq_dec (usub b a) 2) as [H2|H2].
  { rewrite bs_body_pair by assumption. intros [= <- <-].
    repeat constructor; cbn; lia. }
  rewrite bs_body_node by assumption.
  destruct (budget_halves_nonneg tds Ht) as (Hq & Hq0 & Hq1).
  assert (Hq2 : idiv tds 2 <= tds).
  { rewrite Hq. pose proof (Z.div_mod tds 2 ltac:(lia)).
    pose proof (Z.mod_pos_bound tds 2 ltac:(lia)). lia. }
  assert (Hweak : forall lo hi l, 0 <= lo -> hi <= tds ->
            Forall (budget_in 0 hi) l -> Forall (budget_in 0 tds) l).
  { intros lo hi l _ Hhi. apply Forall_impl. intros [x y z|x y]; cbn; lia. }
  destruct (bs_gen rt keep fuel a (mid a b) (idiv tds 2)) as [[tl ll]|] eqn:El;
    [|discriminate].
  pose proof (IH _ _ _ _ _ Hq0 El) as Hl.
  assert (Hright : forall tr lr,
    (if split_team rt a b tds =? 1 then Some (mkT 0 0 0, [])
     else bs_gen rt keep fuel (mid a b) b (tds - idiv tds 2)) = Some (tr, lr) ->
    Forall (budget_in 0 (tds - idiv tds 2)) lr).
  { intros tr lr. destruct (split_team rt a b tds =? 1).
    - intros [= <- <-]. constructor.
    - apply IH. exact Hq1. }
  destruct (if split_team rt a b tds =? 1 then _ else _) as [[tr lr]|]; [|discriminate].
  pose proof (Hright tr lr eq_refl) as Hr.
  intros [= <- <-].
  constructor; [cbn; lia|]. rewrite !Forall_app. repeat split.
  - unfold split_marker. destruct (forks a b tds 2); repeat constructor.
  - apply (Hweak 0 (idiv tds 2)); (lia || assumption).
  - apply (Hweak 0 (tds - idiv tds 2)); (lia || assumption).
  - unfold combine_marker. destruct (forks a b tds 3); repeat constructor.
Qed.

End LogMeasures.

(** ** The call tree *)


Lemma count_calls_app l1 l2 :
  count_calls (l1 ++ l2) = count_calls l1 + count_calls l2.
Proof. unfold count_calls. rewrite filter_app, length_app. lia. Qed.

Lemma count_calls_cons a b tds lg :
  count_calls (Call a b tds :: lg) = 1 + count_calls lg.
Proof. unfold count_calls. cbn [filter is_call length]. lia. Qed.

Lemma count_calls_markers rt a b tds :
  count_calls (split_marker rt a b tds) = 0
  /\ count_calls (combine_marker rt a b tds) = 0.
Proof.
  unfold split_marker, combine_marker.
  destruct (forks a b tds 2), (forks a b tds 3); split; reflexivity.
Qed.

Lemma count_calls_nonneg lg : 0 <= count_calls lg.
Proof. unfold count_calls. lia. Qed.

Lemma leaf_ranges_app l1 l2 :
  leaf_ranges (l1 ++ l2) = leaf_ranges l1 ++ leaf_ranges l2.
Proof. unfold leaf_ranges. apply flat_map_app. Qed.

Lemma leaf_ranges_markers rt a b tds :
  leaf_ranges (split_marker rt a b tds) = []
  /\ leaf_ranges (combine_marker rt a b tds) = [].
Proof.
  unfold split_marker, combine_marker.
  destruct (forks a b tds 2), (forks a b tds 3); split; reflexivity.
Qed.

Lemma chain_app a m b l1 l2 :
  chain a m l1 -> chain m b l2 -> chain a b (l1 ++ l2).
Proof.
  revert a. induction l1 as [|[x y] l1 IH]; intros a H1 H2; cbn [chain app] in *.
  - subst. exact H2.
  - destruct H1 as (Hx & Hlt & Hw & Hrest). repeat split; try assumption.
    apply IH; assumption.
Qed.

Section CallTree.

Variable rt : runtime.
Variable keep : Z -> bool.

(** A call on [[a, b)] makes fewer than [2 (b - a)] calls of [bs],
    itself included. *)
Lemma calls_bound fuel : forall a b tds t lg,
  0 <= a -> a < b -> b <= ULONG_MAX ->
  bs_gen rt keep fuel a b tds = Some (t, lg) ->
  1 <= count_calls lg <= 2 * (b - a) - 1.
Proof.
  induction fuel as [|fuel IH]; intros a b tds t lg Ha Hab Hb; [discriminate|].
  cbn [bs_gen]. pose proof (usub_small a b ltac:(lia) Hb) as Hu.
  destruct (Z.eq_dec (b - a) 1) as [H1|H1].
  { rewrite bs_body_leaf by lia. intros [= <- <-].
    rewrite count_calls_cons. change (count_calls []) with 0. lia. }
  destruct (Z.eq_dec (b - a) 2) as [H2|H2].
  { rewrite bs_body_pair by lia. intros [= <- <-].
    rewrite count_calls_cons. change (count_calls []) with 0. lia. }
  rewrite bs_body_node by lia.
  pose proof (mid_between a b Ha Hb ltac:(lia)) as Hm.
  destruct (bs_gen rt keep fuel a (mid a b) (idiv tds 2)) as [[tl ll]|] eqn:El;
    [|discriminate].
  pose proof (IH a (mid a b) _ _ _ Ha ltac:(lia) ltac:(lia) El) as Hl.
  assert (Hright : forall tr lr,
    (if split_team rt a b tds =? 1 then Some (mkT 0 0 0, [])
     else bs_gen rt keep fuel (mid a b) b (tds - idiv tds 2)) = Some (tr, lr) ->
    0 <= count_calls lr <= 2 * (b - mid a b) - 1).
  { intros tr lr. destruct (split_team rt a b tds =? 1).
    - intros [= <- <-]. change (count_calls []) with 0. lia.
    - intros Er. pose proof (IH (mid a b) b _ _ _ ltac:(lia) ltac:(lia) Hb Er). lia. }
  destruct (if split_team rt a b tds =? 1 then _ else _) as [[tr lr]|]; [|discriminate].
  pose proof (Hright tr lr eq_refl) as Hr.
  intros [= <- <-].
  destruct (count_calls_markers rt a b tds) as [Hs Hc].
  rewrite count_calls_cons, !count_calls_app, Hs, Hc. lia.
Qed.

(** With complete teams, or serially, the ranges evaluated without
    recursion are listed in the log from [a] to [b], each starting
    where the one before it ends. *)
Lemma leaves_tile fuel : forall a b tds t lg,
  grants_all rt \/ tds < 2 ->
  0 <= a -> a < b -> b <= ULONG_MAX ->
  bs_gen rt keep fuel a b tds = Some (t, lg) ->
  chain a b (leaf_ranges lg).
Proof.
  induction fuel as [|fuel IH]; intros a b tds t lg Hc Ha Hab Hb; [discriminate|].
  cbn [bs_gen]. pose proof (usub_small a b ltac:(lia) Hb) as Hu.
  destruct (Z.eq_dec (b - a) 1) as [H1|H1].
  { rewrite bs_body_leaf by lia. intros [= <- <-]. cbn [leaf_ranges flat_map].
    destruct (Z.leb_spec (b - a) 2); [|lia]. cbn. lia. }
  destruct (Z.eq_dec (b - a) 2) as [H2|H2].
  { rewrite bs_body_pair by lia. intros [= <- <-]. cbn [leaf_ranges flat_map].
    destruct (Z.leb_spec (b - a) 2); [|lia]. cbn. lia. }
  rewrite bs_body_node by lia.
  pose proof (mid_between a b Ha Hb ltac:(lia)) as Hm.
  assert (Hcl : grants_all rt \/ idiv tds 2 < 2).
  { destruct Hc as [Hg|Ht]; [left; assumption|right; apply budget_halves; assumption]. }
  assert (Hcr : grants_all rt \/ tds - idiv tds 2 < 2).
  { destruct Hc as [Hg|Ht]; [left; assumption|right; apply budget_halves; assumption]. }
  rewrite split_team_complete by assumption. cbn [Z.eqb Pos.eqb].
  destruct (bs_gen rt keep fuel a (mid a b) (idiv tds 2)) as [[tl ll]|] eqn:El;
    [|discriminate].
  destruct (bs_gen rt keep fuel (mid a b) b (tds - idiv tds 2)) as [[tr lr]|] eqn:Er;
    [|discriminate].
  intros [= <- <-].
  destruct (leaf_ranges_markers rt a b tds) as [Hs Hcm].
  change (Call a b tds :: split_marker rt a b tds ++ ll ++ lr ++ combine_marker rt a b tds)
    with ([Call a b tds] ++ split_marker rt a b tds ++ ll ++ lr ++ combine_marker rt a b tds).
  rewrite !leaf_ranges_app, Hs, Hcm, app_nil_r.
  cbn [leaf_ranges flat_map app]. destruct (Z.leb_spec (b - a) 2); [lia|].
  cbn [app]. apply chain_app with (mid a b).
  - apply (IH a (mid a b) _ _ _ Hcl Ha ltac:(lia) ltac:(lia) El).
  - apply (IH (mid a b) b _ _ _ Hcr ltac:(lia) ltac:(lia) Hb Er).
Qed.

End CallTree.

(** What a chain says without regard to the order of its ranges: each is
    1 or 2 wide, and every index from [a + 1] to [b] lies in exactly one
    of them. *)
Lemma chain_le l : forall a b, chain a b l -> a <= b.
Proof.
  induction l as [|[x y] l IH]; intros a b H; cbn [chain] in H.
  - lia.
  - destruct H as (_ & Hay & _ & Hc). specialize (IH y b Hc). lia.
Qed.

Lemma chain_widths l : forall a b,
  chain a b l -> Forall (fun r => 1 <= snd r - fst r <= 2) l.
Proof.
  induction l as [|[x y] l IH]; intros a b H; cbn [chain] in H.
  - constructor.
  - destruct H as (Hx & Hay & Hw & Hc). constructor.
    + cbn [fst snd]. lia.
    + exact (IH y b Hc).
Qed.

Lemma chain_count k l : forall a b,
  chain a b l ->
  count_holding k l = if (a <? k) && (k <=? b) then 1 else 0.
Proof.
  unfold count_holding.
  induction l as [|[x y] l IH]; intros a b H; cbn [chain] in H.
  - subst b. cbn [filter length].
    destruct (Z.ltb_spec a k); destruct (Z.leb_spec k a); cbn [andb]; lia.
  - destruct H as (Hx & Hay & Hw & Hc). subst x.
    pose proof (chain_le l y b Hc) as Hyb.
    specialize (IH y b Hc). cbn [filter]. unfold holds_term at 1. cbn [fst snd].
    destruct (Z.ltb_spec a k); destruct (Z.leb_spec k y); cbn [andb length];
      rewrite ?Nat2Z.inj_succ, IH;
      destruct (Z.ltb_spec y k); destruct (Z.leb_spec k b); cbn [andb]; lia.
Qed.

(** ** The selected precision; the last region *)


Section FinalizationEdge.

Variable mpf : Type.
Variable zero : mpf.
Variable of_z : Z -> Z -> mpf.
Variables quot prod : Z -> mpf -> mpf -> mpf.
Variable root : Z -> Z -> mpf.


End FinalizationEdge.

(** ** Further properties of [bs] and [main] *)


(** X5: a call of [bs] with budget [tds] on a range [a < b] returns, and
    whenever it returns it has opened at most [tds - 1] two-thread
    regions and at most [tds - 2] three-thread regions (none at all for
    a budget below 2), whatever the runtime grants. *)
Theorem X5_regions_bounded_by_budget rt terms a b tds :
  0 <= a -> a < b -> b <= ULONG_MAX ->
  (exists fuel t lg, bs rt terms fuel a b tds = Some (t, lg))
  /\ forall fuel t lg,
       bs rt terms fuel a b tds = Some (t, lg) ->
       count_regions 2 lg <= Z.max 0 (tds - 1)
       /\ count_regions 3 lg <= Z.max 0 (tds - 2).
Proof.
  intros Ha Hab Hb. split.
  - destruct (bs_gen_total rt (fun b => b <? wrap terms) (Z.to_nat (b - a)) a b tds)
      as (t & lg & Hrun & _); try lia.
    exists (Z.to_nat (b - a)), t, (Call a b tds :: lg). exact Hrun.
  - intros fuel t lg. apply region_counts.
Qed.

Lemma X5_regions_bounded_by_budget_witness :
  (exists fuel t lg, bs full_teams 20 fuel 0 20 4 = Some (t, lg))
  /\ forall fuel t lg,
       bs full_teams 20 fuel 0 20 4 = Some (t, lg) ->
       count_regions 2 lg <= Z.max 0 (4 - 1)
       /\ count_regions 3 lg <= Z.max 0 (4 - 2).
Proof.
  apply (X5_regions_bounded_by_budget full_teams 20 0 20 4); vm_compute;
    discriminate || reflexivity.
Defined.

(** X6: when the budget is not negative, every call made below a call
    with budget [tds] carries a budget between 0 and [tds]: the halving
    never creates budget and never makes it negative. *)
Theorem X6_budgets_stay_in_range rt terms a b tds :
  0 <= a -> a < b -> b <= ULONG_MAX -> 0 <= tds ->
  (exists fuel t lg, bs rt terms fuel a b tds = Some (t, lg))
  /\ forall fuel t lg,
       bs rt terms fuel a b tds = Some (t, lg) -> Forall (budget_in 0 tds) lg.
Proof.
  intros Ha Hab Hb Ht. split.
  - destruct (bs_gen_total rt (fun b => b <? wrap terms) (Z.to_nat (b - a)) a b tds)
      as (t & lg & Hrun & _); try lia.
    exists (Z.to_nat (b - a)), t, (Call a b tds :: lg). exact Hrun.
  - intros fuel t lg. apply budgets_in_log. exact Ht.
Qed.

Lemma X6_budgets_stay_in_range_witness :
  (exists fuel t lg, bs full_teams 20 fuel 0 20 5 = Some (t, lg))
  /\ forall fuel t lg,
       bs full_teams 20 fuel 0 20 5 = Some (t, lg) -> Forall (budget_in 0 5) lg.
Proof.
  apply (X6_budgets_stay_in_range full_teams 20 0 20 5); vm_compute;
    discriminate || reflexivity.
Defined.

(** X7: a call of [bs] on [[a, b)] makes at least one and fewer than
    [2 (b - a)] calls of [bs], itself included, whatever the budget and
    the runtime. *)
Theorem X7_number_of_calls rt terms a b tds :
  0 <= a -> a < b -> b <= ULONG_MAX ->
  (exists fuel t lg, bs rt terms fuel a b tds = Some (t, lg))
  /\ forall fuel t lg,
       bs rt terms fuel a b tds = Some (t, lg) ->
       1 <= count_calls lg <= 2 * (b - a) - 1.
Proof.
  intros Ha Hab Hb. split.
  - destruct (bs_gen_total rt (fun b => b <? wrap terms) (Z.to_nat (b - a)) a b tds)
      as (t & lg & Hrun & _); try lia.
    exists (Z.to_nat (b - a)), t, (Call a b tds :: lg). exact Hrun.
  - intros fuel t lg. apply calls_bound; assumption.
Qed.

Lemma X7_number_of_calls_witness :
  (exists fuel t lg, bs one_thread 20 fuel 3 20 0 = Some (t, lg))
  /\ forall fuel t lg,
       bs one_thread 20 fuel 3 20 0 = Some (t, lg) ->
       1 <= count_calls lg <= 2 * (20 - 3) - 1.
Proof.
  apply (X7_number_of_calls one_thread 20 3 20 0); vm_compute;
    discriminate || reflexivity.
Defined.

(** X8: with complete teams, or serially, the ranges that [bs] evaluates
    without recursion are 1 or 2 wide and tile the range: every term of
    [[a, b)], of index [a + 1] to [b], belongs to exactly one of them
    and no other index to any.  The count does not depend on the order
    in which the threads of a region reach their leaves. *)
Theorem X8_leaves_tile_the_range rt terms a b tds :
  grants_all rt \/ tds < 2 ->
  0 <= a -> a < b -> b <= ULONG_MAX ->
  (exists fuel t lg, bs rt terms fuel a b tds = Some (t, lg))
  /\ forall fuel t lg,
       bs rt terms fuel a b tds = Some (t, lg) ->
       Forall (fun r => 1 <= snd r - fst r <= 2) (leaf_ranges lg)
       /\ forall k, count_holding k (leaf_ranges lg)
                    = if (a <? k) && (k <=? b) then 1 else 0.
Proof.
  intros Hc Ha Hab Hb. split.
  - destruct (bs_gen_total rt (fun b => b <? wrap terms) (Z.to_nat (b - a)) a b tds)
      as (t & lg & Hrun & _); try lia.
    exists (Z.to_nat (b - a)), t, (Call a b tds :: lg). exact Hrun.
  - intros fuel t lg Hrun.
    assert (Hchain : chain a b (leaf_ranges lg))
      by (apply (leaves_tile rt (fun b => b <? wrap terms) fuel a b tds t lg);
          assumption).
    split; [exact (chain_widths _ a b Hchain)|].
    intros k. exact (chain_count k _ a b Hchain).
Qed.

Lemma X8_leaves_tile_the_range_witness :
  (exists fuel t lg, bs one_thread 20 fuel 3 20 0 = Some (t, lg))
  /\ forall fuel t lg,
       bs one_thread 20 fuel 3 20 0 = Some (t, lg) ->
       Forall (fun r => 1 <= snd r - fst r <= 2) (leaf_ranges lg)
       /\ forall k, count_holding k (leaf_ranges lg)
                    = if (3 <? k) && (k <=? 20) then 1 else 0.
Proof.
  apply (X8_leaves_tile_the_range one_thread 20 3 20 0);
    try (right; reflexivity); vm_compute; discriminate || reflexivity.
Defined.

(** X9: the precision that [main] selects.  For a digit count up to
    646456988 the value computed in [double] fits a [long] and is
    within one bit below and a hundred-thousandth of a bit above
    [d * 3.32192809488736234787 + 16]: at least 15 guard bits are
    added.  From 646456989 digits on it exceeds [LONG_MAX] and the cast
    of line 298 is undefined. *)
Theorem X9_precision_bits_bounds d :
  0 <= d <= LONG_MAX ->
  (d <= 646456988 ->
   exists p,
     to_long (precision_bits d) = Some p
     /\ 332192809488736234787 * d + 15 * 10 ^ 20 - 10 ^ 15 < 10 ^ 20 * p
     /\ 10 ^ 20 * p <= 332192809488736234787 * d + 16 * 10 ^ 20 + 10 ^ 15)
  /\ (646456989 <= d -> to_long (precision_bits d) = None).
Proof.
  intros Hd. split.
  - intros Hfit. exists (precision_bits d). split.
    + apply to_long_fits. pose proof (precision_fits d ltac:(lia)). lia.
    + apply precision_bits_bounds. exact Hd.
  - intros Hbig. apply to_long_above. apply precision_overflows. lia.
Qed.

Lemma X9_precision_bits_bounds_witness :
  (1000 <= 646456988 ->
   exists p,
     to_long (precision_bits 1000) = Some p
     /\ 332192809488736234787 * 1000 + 15 * 10 ^ 20 - 10 ^ 15 < 10 ^ 20 * p
     /\ 10 ^ 20 * p <= 332192809488736234787 * 1000 + 16 * 10 ^ 20 + 10 ^ 15)
  /\ (646456989 <= 1000 -> to_long (precision_bits 1000) = None).
Proof.
  apply (X9_precision_bits_bounds 1000). vm_compute. split; discriminate.
Defined.

(** X10: the combine step of a call whose two halves were evaluated.
    [P = P_l P_r] always; with the three products carried out (serially,
    or by a team of three) [Q = Q_l P_r + Q_r G_l]; a team of two skips
    the product of [Q_r] by [G_l], a team of one also that of [Q_l] by
    [P_r]; and [G = G_l G_r] while [b < terms], [G_l] otherwise. *)
Theorem X10_combine_by_team_size rt terms a b tds :
  0 <= a -> b <= ULONG_MAX -> 2 < b - a ->
  (forks a b tds 2 = true -> 2 <= rt a b SplitRegion) ->
  exists fuel tl tr t ll lr lg,
    bs rt terms fuel a (mid a b) (Z.quot tds 2) = Some (tl, ll)
    /\ bs rt terms fuel (mid a b) b (tds - Z.quot tds 2) = Some (tr, lr)
    /\ bs rt terms (S fuel) a b tds = Some (t, lg)
    /\ tP t = tP tl * tP tr
    /\ tQ t = (if (if forks a b tds 3 then team rt a b CombineRegion 3 else 3) =? 1
               then tQ tl else tQ tl * tP tr)
              + (if (if forks a b tds 3 then team rt a b CombineRegion 3 else 3) <? 3
                 then tQ tr else tQ tr * tG tl)
    /\ tG t = (if b <? wrap terms then tG tl * tG tr else tG tl).
Proof.
  intros Ha Hb Hw Hsplit.
  pose proof (usub_small a b ltac:(lia) Hb) as Hu.
  pose proof (mid_between a b Ha Hb Hw) as Hm.
  set (fuel := Z.to_nat (b - a)).
  destruct (bs_gen_total rt (fun b => b <? wrap terms) fuel a (mid a b) (idiv tds 2))
    as (tl & ll & Hl & _); try (subst fuel; lia).
  destruct (bs_gen_total rt (fun b => b <? wrap terms) fuel (mid a b) b (tds - idiv tds 2))
    as (tr & lr & Hr & _); try (subst fuel; lia).
  exists fuel, tl, tr. unfold bs. cbn [bs_gen].
  rewrite bs_body_node by lia.
  assert (Hs : split_team rt a b tds = 2).
  { unfold split_team. destruct (forks a b tds 2); [|reflexivity].
    apply team_full; [lia|]. apply Hsplit. reflexivity. }
  rewrite Hs. cbn [Z.eqb Pos.eqb]. unfold idiv in *. rewrite Hl, Hr.
  eexists _, _, _, _. split; [reflexivity|]. split; [reflexivity|]. split; [reflexivity|].
  rewrite finish_merged by apply combine_team_range.
  cbn [tP tQ tG]. unfold combine_team. repeat split.
Qed.

Lemma X10_combine_by_team_size_witness :
  exists fuel tl tr t ll lr lg,
    bs full_teams 9 fuel 0 (mid 0 9) (Z.quot 3 2) = Some (tl, ll)
    /\ bs full_teams 9 fuel (mid 0 9) 9 (3 - Z.quot 3 2) = Some (tr, lr)
    /\ bs full_teams 9 (S fuel) 0 9 3 = Some (t, lg)
    /\ tP t = tP tl * tP tr
    /\ tQ t = (if (if forks 0 9 3 3 then team full_teams 0 9 CombineRegion 3 else 3) =? 1
               then tQ tl else tQ tl * tP tr)
              + (if (if forks 0 9 3 3 then team full_teams 0 9 CombineRegion 3 else 3) <? 3
                 then tQ tr else tQ tr * tG tl)
    /\ tG t = (if 9 <? wrap 9 then tG tl * tG tr else tG tl).
Proof.
  apply (X10_combine_by_team_size full_teams 9 0 9 3); vm_compute;
    discriminate || reflexivity.
Defined.



(** ** The divisor is positive *)

Lemma term_exact_bounds b :
  1 <= b ->
  0 < tG (term_exact b) <= 72 * b ^ 3
  /\ tP (term_exact b) = b ^ 3 * (C ^ 3 / 24) /\ 0 < b ^ 3.
Proof.
  intros Hb. unfold term_exact. cbn [tG tP].
  change 3 with (Z.succ (Z.succ (Z.succ 0))).
  rewrite !Z.pow_succ_r, Z.pow_0_r by lia.
  repeat split; try nia.
Qed.

Lemma term_exact_absQ b :
  1 <= b -> Z.abs (tQ (term_exact b)) = (A + B * b) * tG (term_exact b).
Proof.
  intros Hb. destruct (term_exact_bounds b Hb) as ((Hg & _) & _).
  rewrite term_exact_Q.
  assert (0 < A + B * b) by (unfold A, B; lia).
  destruct (Z.odd b); nia.
Qed.

Lemma range_exact_step n :
  let b := Z.of_nat n + 1 in
  tP (range_exact 0 (S n)) = tP (range_exact 0 n) * tP (term_exact b)
  /\ tG (range_exact 0 (S n)) = tG (range_exact 0 n) * tG (term_exact b)
  /\ tQ (range_exact 0 (S n))
     = tQ (range_exact 0 n) * tP (term_exact b)
       + tQ (term_exact b) * tG (range_exact 0 n).
Proof.
  cbn zeta. cbn [range_exact]. replace (0 + Z.of_nat n + 1) with (Z.of_nat n + 1) by lia.
  repeat split.
Qed.

Lemma range_exact_pos n :
  0 < tP (range_exact 0 n) /\ 0 < tG (range_exact 0 n).
Proof.
  induction n as [|n [IHP IHG]]; [split; reflexivity|].
  destruct (range_exact_step n) as (-> & -> & _).
  destruct (term_exact_bounds (Z.of_nat n + 1) ltac:(lia)) as ((Hg & _) & -> & Hb3).
  change (C ^ 3 / 24) with 10939058860032000. split; nia.
Qed.

(** The last term is small against the product: [2^(n+2) (A + B(n+1))
    G(0,n+1) <= A P(0,n+1)]. *)
Lemma link_factor_small n :
  2 ^ (Z.of_nat n + 2) * (A + B * (Z.of_nat n + 1)) * tG (range_exact 0 (S n))
  <= A * tP (range_exact 0 (S n)).
Proof.
  induction n as [|n IH]; [vm_compute; discriminate|].
  destruct (range_exact_step (S n)) as (-> & -> & _).
  destruct (range_exact_pos (S n)) as [HP HG].
  set (P := tP (range_exact 0 (S n))) in *.
  set (G := tG (range_exact 0 (S n))) in *.
  rewrite Nat2Z.inj_succ. unfold Z.succ.
  set (m := Z.of_nat n) in *.
  destruct (term_exact_bounds (m + 1 + 1) ltac:(lia)) as ((Hg & Hg72) & -> & Hb3).
  set (g := tG (term_exact (m + 1 + 1))) in *.
  set (b3 := (m + 1 + 1) ^ 3) in *.
  replace (2 ^ (m + 1 + 2)) with (2 * 2 ^ (m + 2))
    by (rewrite <- Z.pow_succ_r by lia; f_equal; lia).
  set (W := 2 ^ (m + 2)) in *.
  assert (HW : 0 < W) by (apply Z.pow_pos_nonneg; lia).
  set (a1 := A + B * (m + 1)) in *.
  assert (Ha1 : 0 < a1) by (unfold a1, A, B; lia).
  assert (Ha2 : A + B * (m + 1 + 1) <= 2 * a1) by (unfold a1, A, B; lia).
  assert (Ha2' : 0 < A + B * (m + 1 + 1)) by (unfold A, B; lia).
  set (a2 := A + B * (m + 1 + 1)) in *.
  (* a2 * g <= 144 * b3 * a1 *)
  assert (H1 : a2 * g <= (2 * a1) * (72 * b3)).
  { apply Z.mul_le_mono_nonneg; lia. }
  set (T := W * a1 * G) in *.
  assert (HT : 0 <= T) by (unfold T; nia).
  assert (H2 : 2 * W * a2 * (G * g) <= 288 * b3 * T).
  { replace (2 * W * a2 * (G * g)) with ((2 * (W * G)) * (a2 * g)) by ring.
    replace (288 * b3 * T) with ((2 * (W * G)) * ((2 * a1) * (72 * b3))) by (unfold T; ring).
    apply Z.mul_le_mono_nonneg_l; [nia|exact H1]. }
  assert (H3 : 288 * b3 * T <= 288 * b3 * (A * P)).
  { apply Z.mul_le_mono_nonneg_l; [lia|exact IH]. }
  assert (H4 : 288 * b3 * (A * P) <= A * (P * (b3 * (C ^ 3 / 24)))).
  { change (C ^ 3 / 24) with 10939058860032000.
    assert (0 <= b3 * (A * P)) by (unfold A; nia).
    replace (A * (P * (b3 * 10939058860032000)))
      with (10939058860032000 * (b3 * (A * P))) by ring.
    replace (288 * b3 * (A * P)) with (288 * (b3 * (A * P))) by ring. lia. }
  lia.
Qed.

(** [Q(0,n) + A P(0,n)] stays above half of [A P(0,n)]. *)
Lemma divisor_lower_bound n :
  A * tP (range_exact 0 n) * (2 ^ Z.of_nat n + 1)
  <= 2 ^ (Z.of_nat n + 1) * (tQ (range_exact 0 n) + A * tP (range_exact 0 n)).
Proof.
  induction n as [|n IH]; [vm_compute; discriminate|].
  pose proof (link_factor_small n) as Hsmall.
  destruct (range_exact_step n) as (HP & HG & HQ).
  rewrite HG in Hsmall. rewrite HP in Hsmall |- *. rewrite HQ.
  destruct (range_exact_pos n) as [HPpos HGpos].
  set (P := tP (range_exact 0 n)) in *.
  set (G := tG (range_exact 0 n)) in *.
  set (Q := tQ (range_exact 0 n)) in *.
  rewrite Nat2Z.inj_succ. unfold Z.succ.
  set (m := Z.of_nat n) in *.
  pose proof (term_exact_absQ (m + 1) ltac:(lia)) as Habs.
  destruct (term_exact_bounds (m + 1) ltac:(lia)) as ((Hg & _) & Hp & Hb3).
  assert (Hppos : 0 < tP (term_exact (m + 1))).
  { rewrite Hp. change (C ^ 3 / 24) with 10939058860032000. lia. }
  set (p := tP (term_exact (m + 1))) in *.
  set (g := tG (term_exact (m + 1))) in *.
  set (q := tQ (term_exact (m + 1))) in *.
  replace (2 ^ (m + 1 + 1)) with (2 * 2 ^ (m + 1))
    by (rewrite <- Z.pow_succ_r by lia; f_equal; lia).
  replace (2 ^ (m + 1)) with (2 * 2 ^ m) in *
    by (rewrite <- Z.pow_succ_r by lia; f_equal; lia).
  replace (2 ^ (m + 2)) with (4 * 2 ^ m) in Hsmall
    by (replace (m + 2) with (Z.succ (Z.succ m)) by lia;
        rewrite !Z.pow_succ_r by lia; ring).
  set (W := 2 ^ m) in *.
  assert (HW : 0 < W) by (apply Z.pow_pos_nonneg; lia).
  (* q * G >= - |q| * G *)
  assert (HqG : - ((A + B * (m + 1)) * g * G) <= q * G).
  { rewrite <- Habs. assert (- Z.abs q <= q) by lia. nia. }
  assert (Hs' : 4 * W * ((A + B * (m + 1)) * g * G) <= A * (P * p)).
  { replace (4 * W * ((A + B * (m + 1)) * g * G))
      with (4 * W * (A + B * (m + 1)) * (G * g)) by ring. exact Hsmall. }
  assert (HIH : (A * P * (W + 1)) * p <= (2 * W * (Q + A * P)) * p).
  { apply Z.mul_le_mono_nonneg_r; lia. }
  assert (HqG' : 4 * W * (- ((A + B * (m + 1)) * g * G)) <= 4 * W * (q * G)).
  { apply Z.mul_le_mono_nonneg_l; lia. }
  replace (2 * (2 * W) * (Q * p + q * G + A * (P * p)))
    with (2 * ((2 * W * (Q + A * P)) * p) + 4 * W * (q * G)) by ring.
  replace (A * (P * p) * (2 * W + 1))
    with (2 * ((A * P * (W + 1)) * p) - A * (P * p)) by ring.
  lia.
Qed.

Lemma divisor_positive n :
  0 < tP (range_exact 0 n)
  /\ 0 < tQ (range_exact 0 n) + A * tP (range_exact 0 n).
Proof.
  destruct (range_exact_pos n) as [HP _]. split; [exact HP|].
  pose proof (divisor_lower_bound n) as H.
  assert (HW : 0 < 2 ^ Z.of_nat n) by (apply Z.pow_pos_nonneg; lia).
  assert (HW1 : 0 < 2 ^ (Z.of_nat n + 1)) by (apply Z.pow_pos_nonneg; lia).
  assert (0 < A * tP (range_exact 0 n) * (2 ^ Z.of_nat n + 1)) by (unfold A; nia).
  nia.
Qed.

Lemma chud_sum_zero : chud_sum 0 = A.
Proof. reflexivity. Qed.

Lemma root_pair_closed rt terms threads :
  grants_all rt \/ threads < 2 ->
  0 <= terms -> 6 * terms - 1 <= ULONG_MAX ->
  exists fuel P Q lg,
    evaluate_terms rt fuel terms threads = Some (P, Q, lg)
    /\ P = Z.of_nat (fact (Z.to_nat terms)) ^ 3 * (C ^ 3 / 24) ^ terms
    /\ Q + A * P = chud_sum (Z.to_nat terms)
    /\ 0 < Q + A * P.
Proof.
  intros Hc H0 Hmax. destruct (Z.eq_dec terms 0) as [->|Hnz].
  - exists 0%nat, 1, 0, []. repeat split.
  - destruct (evaluate_terms_reference rt terms threads Hc ltac:(lia) ltac:(lia))
      as (lg & Hrun).
    rewrite range_exact_eq in Hrun by lia.
    eexists _, _, _, lg. split; [exact Hrun|]. split; [|split].
    + rewrite range_exact_P_factorial, Z2Nat.id by lia. reflexivity.
    + apply range_exact_series.
    + apply divisor_positive.
Qed.

(** X12: [main] from the digit count to pi.  For every digit count
    [d >= 0] whose precision fits a [long], run serially or with
    complete teams, with [n] the term count derived from [d], the
    program returns [(P' / Q') * sqrt(C)] at the selected precision with
    [P' = (n!)^3 (C^3/24)^n (C/D)] and [Q'] the numerator of the first
    [n+1] terms of the Chudnovsky series over their common
    denominator. *)
Theorem X12_main_computes_the_series (mpf : Type) (zero : mpf)
    (of_z : Z -> Z -> mpf) (quot prod : Z -> mpf -> mpf -> mpf)
    (root : Z -> Z -> mpf) rt d threads :
  0 <= d <= LONG_MAX -> precision_bits d <= LONG_MAX ->
  threads < 2 \/ (grants_all rt /\ 2 <= rt 0 0 DivSqrtRegion) ->
  exists fuel st,
    main_pi mpf zero of_z quot prod root rt fuel d threads = Some st
    /\ fv mpf st Pi
       = Some (mkFV mpf (precision_bits d)
                 (prod (precision_bits d)
                    (quot (precision_bits d)
                       (of_z (precision_bits d)
                          (Z.of_nat (fact (Z.to_nat (terms_of_digits d))) ^ 3
                           * (C ^ 3 / 24) ^ terms_of_digits d * (C / D)))
                       (of_z (precision_bits d)
                          (chud_sum (Z.to_nat (terms_of_digits d)))))
                    (root (precision_bits d) C))).
Proof.
  intros Hd Hp Hteam.
  destruct (terms_of_digits_range d Hd) as ((Ht0 & _) & _ & Hw).
  destruct (root_pair_closed rt (terms_of_digits d) threads)
    as (fuel & P & Q & lg & Hrun & HP & HQ & Hpos); try assumption; [tauto|].
  destruct (convert_and_combine_run mpf zero of_z quot prod root rt threads
              (precision_bits d) P Q)
    as (st & Hfin & _ & _ & _ & _ & _ & Hpi); [tauto|lia|].
  exists fuel, st. unfold main_pi, finalize. rewrite Hrun.
  rewrite to_long_fits
    by (destruct (precision_bits_bounds d Hd) as [Hlo _];
        change (10 ^ 20) with 100000000000000000000 in Hlo;
        change (10 ^ 15) with 1000000000000000 in Hlo;
        change LONG_MAX with 2147483647 in *; lia).
  split; [exact Hfin|].
  rewrite Hpi, HQ, HP. reflexivity.
Qed.

Lemma X12_main_computes_the_series_witness :
  exists fuel st,
    main_pi fexpr FZero FOfZ FQuot FProd FRoot one_thread fuel 30 1 = Some st
    /\ fv fexpr st Pi
       = Some (mkFV fexpr (precision_bits 30)
                 (FProd (precision_bits 30)
                    (FQuot (precision_bits 30)
                       (FOfZ (precision_bits 30)
                          (Z.of_nat (fact (Z.to_nat (terms_of_digits 30))) ^ 3
                           * (C ^ 3 / 24) ^ terms_of_digits 30 * (C / D)))
                       (FOfZ (precision_bits 30)
                          (chud_sum (Z.to_nat (terms_of_digits 30)))))
                    (FRoot (precision_bits 30) C))).
Proof.
  apply (X12_main_computes_the_series fexpr FZero FOfZ FQuot FProd FRoot one_thread 30 1).
  - vm_compute. split; discriminate.
  - vm_compute. discriminate.
  - left. reflexivity.
Defined.

(** ** Empty ranges *)


Lemma bs_gen_empty_range rt keep fuel : forall a tds,
  0 <= a <= ULONG_MAX -> bs_gen rt keep fuel a a tds = None.
Proof.
  induction fuel as [|fuel IH]; intros a tds Ha; [reflexivity|].
  cbn [bs_gen].
  assert (Hu : usub a a = 0) by (rewrite usub_small; lia).
  rewrite bs_body_node by lia.
  assert (Hm : mid a a = a).
  { rewrite mid_exact by lia. replace (a - a) with 0 by lia.
    change (0 * 653 / 1250) with 0. lia. }
  rewrite Hm, IH by assumption. reflexivity.
Qed.

(** X14: on an empty range the width is neither 1 nor 2, the split point
    is [a] itself and the left half is the same empty range: [bs]
    recurses without end, so no amount of fuel makes it return. *)
Theorem X14_empty_range_never_returns rt terms fuel a tds :
  0 <= a <= ULONG_MAX -> bs rt terms fuel a a tds = None.
Proof. apply bs_gen_empty_range. Qed.

Lemma X14_empty_range_never_returns_witness :
  bs full_teams 10 1000 7 7 3 = None.
Proof.
  apply (X14_empty_range_never_returns full_teams 10 1000 7 3).
  vm_compute. split; discriminate.
Defined.

(** ** Sign of the divisor; depth of the recursion *)


(** X13: in a serial run, or one with complete teams, the root pair
    satisfies [P > 0] and [Q + A*P > 0]: the divisor that the
    finalisation hands to [mpf_div] is never zero. *)
Theorem X13_divisor_is_positive rt terms threads :
  grants_all rt \/ threads < 2 ->
  0 <= terms -> 6 * terms - 1 <= ULONG_MAX ->
  exists fuel P Q lg,
    evaluate_terms rt fuel terms threads = Some (P, Q, lg)
    /\ 0 < P /\ 0 < Q + A * P.
Proof.
  intros Hc H0 Hmax. destruct (Z.eq_dec terms 0) as [->|Hnz].
  - exists 0%nat, 1, 0, []. repeat split.
  - destruct (evaluate_terms_reference rt terms threads Hc ltac:(lia) ltac:(lia))
      as (lg & Hrun).
    rewrite range_exact_eq in Hrun by lia.
    eexists _, _, _, lg. split; [exact Hrun|]. apply divisor_positive.
Qed.

Lemma X13_divisor_is_positive_witness :
  exists fuel P Q lg,
    evaluate_terms one_thread fuel 12 0 = Some (P, Q, lg)
    /\ 0 < P /\ 0 < Q + A * P.
Proof.
  apply (X13_divisor_is_positive one_thread 12 0).
  - right. reflexivity.
  - discriminate.
  - vm_compute. discriminate.
Defined.

Lemma halves_two_thirds a b :
  0 <= a -> b <= ULONG_MAX -> 2 < b - a ->
  3 * (mid a b - a) <= 2 * (b - a) /\ 3 * (b - mid a b) <= 2 * (b - a).
Proof.
  intros Ha Hb Hw. rewrite mid_exact by lia.
  pose proof (Z.div_mod ((b - a) * 653) 1250 ltac:(lia)).
  pose proof (Z.mod_pos_bound ((b - a) * 653) 1250 ltac:(lia)).
  lia.
Qed.

Lemma bs_gen_log_depth rt keep k : forall a b tds,
  0 <= a -> a < b -> b <= ULONG_MAX ->
  2 ^ Z.of_nat k * (b - a) <= 2 * 3 ^ Z.of_nat k ->
  exists t lg, bs_gen rt keep (S k) a b tds = Some (t, lg).
Proof.
  induction k as [|k IH]; intros a b tds Ha Hab Hb Hk;
    change (bs_gen rt keep (S ?f) a b tds)
      with (bs_body rt keep (bs_gen rt keep f) a b tds);
    pose proof (usub_small a b ltac:(lia) Hb) as Hu.
  - change (2 ^ Z.of_nat 0) with 1 in Hk. change (3 ^ Z.of_nat 0) with 1 in Hk.
    destruct (Z.eq_dec (b - a) 1) as [H1|H1].
    + rewrite bs_body_leaf by lia. eexists _, _. reflexivity.
    + rewrite bs_body_pair by lia. eexists _, _. reflexivity.
  - destruct (Z.eq_dec (b - a) 1) as [H1|H1].
    { rewrite bs_body_leaf by lia. eexists _, _. reflexivity. }
    destruct (Z.eq_dec (b - a) 2) as [H2|H2].
    { rewrite bs_body_pair by lia. eexists _, _. reflexivity. }
    rewrite bs_body_node by lia.
    pose proof (mid_between a b Ha Hb ltac:(lia)) as Hm.
    destruct (halves_two_thirds a b Ha Hb ltac:(lia)) as [Hl Hr].
    rewrite Nat2Z.inj_succ, !Z.pow_succ_r in Hk by lia.
    set (W := 2 ^ Z.of_nat k) in *. set (T := 3 ^ Z.of_nat k) in *.
    assert (HW : 0 < W) by (apply Z.pow_pos_nonneg; lia).
    assert (Hkl : W * (mid a b - a) <= 2 * T).
    { assert (3 * (W * (mid a b - a)) <= 2 * (W * (b - a))) by nia. lia. }
    assert (Hkr : W * (b - mid a b) <= 2 * T).
    { assert (3 * (W * (b - mid a b)) <= 2 * (W * (b - a))) by nia. lia. }
    destruct (IH a (mid a b) (idiv tds 2)) as (tl & ll & ->); try lia.
    destruct (split_team rt a b tds =? 1); [eexists _, _; reflexivity|].
    destruct (IH (mid a b) b (tds - idiv tds 2)) as (tr & lr & ->); try lia.
    eexists _, _. reflexivity.
Qed.

(** X15: the recursion depth is logarithmic in the width: a call on
    [[a, b)] returns within [k + 1] nested calls as soon as
    [b - a <= 2 (3/2)^k], because no half is wider than two thirds of
    its parent. *)
Theorem X15_recursion_depth rt terms k a b tds :
  0 <= a -> a < b -> b <= ULONG_MAX ->
  2 ^ Z.of_nat k * (b - a) <= 2 * 3 ^ Z.of_nat k ->
  exists t lg, bs rt terms (S k) a b tds = Some (t, lg).
Proof. apply bs_gen_log_depth. Qed.

Lemma X15_recursion_depth_witness :
  exists t lg, bs one_thread 100 (S 10) 0 100 0 = Some (t, lg).
Proof.
  apply (X15_recursion_depth one_thread 100 10 0 100 0); vm_compute;
    discriminate || reflexivity.
Defined.
